(** * Financial formulas of [src/js/excel.js]

    A shallow embedding of the nine spreadsheet functions of the [excel]
    object (PV, FV, RATE, PMT, PPMT, IPMT, NPER, EFFECT, NOMINAL) and the
    properties the specification states about them.

    Numbers.  A JavaScript number is modelled by [number]: a real, or one of
    the three special values NaN, +Infinity, -Infinity.  Finite arithmetic is
    exact real arithmetic: rounding, overflow and underflow of binary64 are
    not modelled.  The special values follow IEEE 754 / ECMAScript
    ([Inf - Inf = NaN], [x / Inf = 0], [log 0 = -Inf], ...).  The two zeros
    are identified (as [===] identifies them); a nonzero number divided by
    zero gives the infinity it gives for [+0].

    Rounding.  What the exact model cannot show, that a result of the code
    differs from the exact value in its last digits, is shown on a second
    embedding, [B64], of FV, PMT, IPMT, PPMT and EFFECT over the binary64
    numbers of the kernel. *)

From Stdlib Require Import Reals Lra Lia ZArith Bool String Floats.

Local Open Scope R_scope.

(** ** JavaScript numbers *)

Module JS.

Inductive number : Type :=
| NaN
| Inf (negative : bool)
| Fin (r : R).

Abbreviation PInf := (Inf false).
Abbreviation NInf := (Inf true).

Definition Rneg (r : R) : bool := if Rlt_dec r 0 then true else false.
Definition Rzero (r : R) : bool := if Req_dec_T r 0 then true else false.

Definition is_finite (x : number) : bool :=
  match x with Fin _ => true | _ => false end.

(** The global [isNaN], on a number. *)
Definition isNaN (x : number) : bool :=
  match x with NaN => true | _ => false end.

(** Unary minus. *)
Definition neg (x : number) : number :=
  match x with
  | NaN => NaN
  | Inf s => Inf (negb s)
  | Fin r => Fin (- r)
  end.

Definition add (x y : number) : number :=
  match x, y with
  | NaN, _ | _, NaN => NaN
  | Inf s, Inf t => if Bool.eqb s t then Inf s else NaN
  | Inf s, Fin _ => Inf s
  | Fin _, Inf t => Inf t
  | Fin a, Fin b => Fin (a + b)
  end.

Definition sub (x y : number) : number := add x (neg y).

Definition mul (x y : number) : number :=
  match x, y with
  | NaN, _ | _, NaN => NaN
  | Inf s, Inf t => Inf (xorb s t)
  | Inf s, Fin b => if Rzero b then NaN else Inf (xorb s (Rneg b))
  | Fin a, Inf t => if Rzero a then NaN else Inf (xorb (Rneg a) t)
  | Fin a, Fin b => Fin (a * b)
  end.

Definition div (x y : number) : number :=
  match x, y with
  | NaN, _ | _, NaN => NaN
  | Inf _, Inf _ => NaN
  | Inf s, Fin b => Inf (xorb s (Rneg b))
  | Fin _, Inf _ => Fin 0
  | Fin a, Fin b =>
      if Rzero b then (if Rzero a then NaN else Inf (Rneg a))
      else Fin (a / b)
  end.

(** [Math.abs]. *)
Definition abs (x : number) : number :=
  match x with
  | NaN => NaN
  | Inf _ => PInf
  | Fin r => Fin (Rabs r)
  end.

(** The comparisons [<], [<=], [>] and [===]: false as soon as an operand
    is NaN. *)
Definition lt (x y : number) : bool :=
  match x, y with
  | NaN, _ | _, NaN => false
  | Inf s, Inf t => s && negb t
  | Inf s, Fin _ => s
  | Fin _, Inf t => negb t
  | Fin a, Fin b => if Rlt_dec a b then true else false
  end.

Definition seq (x y : number) : bool :=
  match x, y with
  | Inf s, Inf t => Bool.eqb s t
  | Fin a, Fin b => if Req_dec_T a b then true else false
  | _, _ => false
  end.

Definition le (x y : number) : bool := lt x y || seq x y.
Definition gt (x y : number) : bool := lt y x.

(** [Math.log] and [Math.exp]. *)
Definition log (x : number) : number :=
  match x with
  | NaN => NaN
  | Inf s => if s then NaN else PInf
  | Fin r => if Rzero r then NInf else if Rneg r then NaN else Fin (ln r)
  end.

Definition exp (x : number) : number :=
  match x with
  | NaN => NaN
  | Inf s => if s then Fin 0 else PInf
  | Fin r => Fin (Rtrigo_def.exp r)
  end.

(** Integers among the reals, for [Math.pow] on a negative base. *)
Definition is_int (r : R) : bool :=
  if Req_dec_T (IZR (Int_part r)) r then true else false.
Definition is_odd_int (r : R) : bool := is_int r && Z.odd (Int_part r).

(** [Math.pow], by the cases of ECMAScript's Number::exponentiate. *)
Definition pow (base exponent : number) : number :=
  match exponent with
  | NaN => NaN
  | Inf t =>
      match base with
      | NaN => NaN
      | Inf _ => if t then Fin 0 else PInf
      | Fin b =>
          if Rzero b then (if t then PInf else Fin 0)
          else if Rlt_dec 1 (Rabs b) then (if t then Fin 0 else PInf)
          else if Req_dec_T (Rabs b) 1 then NaN
          else (if t then PInf else Fin 0)
      end
  | Fin e =>
      if Rzero e then Fin 1
      else
        match base with
        | NaN => NaN
        | Inf s =>
            if Rneg e then Fin 0
            else if s && is_odd_int e then NInf else PInf
        | Fin b =>
            if Rzero b then (if Rneg e then PInf else Fin 0)
            else if Rneg b then
              if is_int e then
                Fin ((if Z.odd (Int_part e) then -1 else 1) * Rpower (- b) e)
              else NaN
            else Fin (Rpower b e)
        end
  end.

(** [parseInt(x, 10)] on a number: the number is first printed.  NaN and
    the infinities print as words, so the result is NaN.  A finite [x] with
    [1e-6 <= |x| < 1e21] prints in positional notation, and the digits
    before the point are read: truncation toward zero.  Every other nonzero
    [x] prints in exponent notation ([d.ddd e+/-n]) and only the leading
    digit is read. *)
Definition Rtrunc (r : R) : Z :=
  if Rlt_dec r 0 then (- Int_part (- r))%Z else Int_part r.

Definition lead_digit (a : R) : Z :=
  Int_part (a / Rpower 10 (IZR (Int_part (ln a / ln 10)))).

Definition parseInt10 (x : number) : number :=
  match x with
  | Fin r =>
      if Rzero r then Fin 0
      else if Rle_dec 1e-6 (Rabs r) then
        if Rlt_dec (Rabs r) 1e21 then Fin (IZR (Rtrunc r))
        else Fin ((if Rneg r then -1 else 1) * IZR (lead_digit (Rabs r)))
      else Fin ((if Rneg r then -1 else 1) * IZR (lead_digit (Rabs r)))
  | _ => NaN
  end.

Declare Scope js_scope.
Delimit Scope js_scope with js.
Bind Scope js_scope with number.
Notation "x + y" := (add x y) : js_scope.
Notation "x - y" := (sub x y) : js_scope.
Notation "x * y" := (mul x y) : js_scope.
Notation "x / y" := (div x y) : js_scope.
Notation "- x" := (neg x) : js_scope.
Notation "x === y" := (seq x y) (at level 70, no associativity) : js_scope.
Notation "x <? y" := (lt x y) : js_scope.
Notation "x <=? y" := (le x y) : js_scope.
Notation "x >? y" := (gt x y) : js_scope.

(** A real literal of the source is the finite number it denotes. *)
Coercion Fin : R >-> number.

End JS.

(** ** The functions of the [excel] object *)

Module Excel.
Import JS.
Local Open Scope js_scope.

(** A trailing parameter the caller may leave out is [None] ([undefined]);
    each function replaces it by its default as the source does. *)
Definition default (d : number) (v : option number) : number :=
  match v with None => d | Some x => x end.

Definition PV (rate periods payment future : number) (type : option number)
  : number :=
  let type := default 0 type in
  if rate === 0 then
    - payment * periods - future
  else
    (((1 - pow (1 + rate) periods) / rate) * payment * (1 + rate * type)
     - future) / pow (1 + rate) periods.

Definition FV (rate periods payment value : number) (type : option number)
  : number :=
  let type := default 0 type in
  let result :=
    if rate === 0 then
      value + payment * periods
    else
      let term := pow (1 + rate) periods in
      if type === 1 then
        value * term + payment * (1 + rate) * (term - 1) / rate
      else
        value * term + payment * (term - 1) / rate in
  - result.

Definition PMT (rate periods present : number) (future type : option number)
  : number :=
  let type := default 0 type in
  let future := default 0 future in
  let result :=
    if rate === 0 then
      (present + future) / periods
    else
      let term := pow (1 + rate) periods in
      if type === 1 then
        (future * rate / (term - 1) + present * rate / (1 - 1 / term))
        / (1 + rate)
      else
        future * rate / (term - 1) + present * rate / (1 - 1 / term) in
  - result.

Definition IPMT (rate period periods present : number)
  (future type : option number) : number :=
  let type' := default 0 type in
  let payment := PMT rate periods present future (Some type') in
  let interest :=
    if period === 1 then
      if type' === 1 then Fin 0 else - present
    else
      if type' === 1 then
        FV rate (period - 2) payment present (Some (Fin 1)) - payment
      else
        FV rate (period - 1) payment present (Some (Fin 0)) in
  interest * rate.

Definition PPMT (rate period periods present : number)
  (future type : option number) : number :=
  PMT rate periods present future type
  - IPMT rate period periods present future type.

(** The locals [num] and [den] of NPER. *)
Definition NPER_num (rate payment future type : number) : number :=
  payment * (1 + rate * type) - future * rate.

Definition NPER_den (rate payment present type : number) : number :=
  present * rate + payment * (1 + rate * type).

Definition NPER (rate payment present : number) (future type : option number)
  : number :=
  let type := default 0 type in
  let future := default 0 future in
  let num := NPER_num rate payment future type in
  let den := NPER_den rate payment present type in
  log (num / den) / log (1 + rate).

(** *** RATE: the secant iteration

    The local variables of the function are the fields of [rate_state];
    [RATE_init] is the code before the [while], [RATE_cond] the loop test and
    [RATE_step] the loop body. *)

Record rate_state : Type := mk_rate_state {
  st_rate : number;
  st_x0 : number;
  st_x1 : number;
  st_y0 : number;
  st_y1 : number;
  st_y : number;
  st_f : number;
  st_i : nat
}.

Definition epsMax : number := Fin 1e-10.
Definition iterMax : nat := 50.

(** The [if]/[else] that assigns [y] (and, in its [else] branch only, [f]):
    the same text before the loop and inside it.  Returns the new [(y, f)]. *)
Definition residual (periods payment present future type rate f : number)
  : number * number :=
  if abs rate <? epsMax then
    (present * (1 + periods * rate) + payment * (1 + rate * type) * periods
     + future, f)
  else
    let f := exp (periods * log (1 + rate)) in
    (present * f + payment * (1 / rate + type) * (f - 1) + future, f).

Definition RATE_init (periods payment present future type guess : number)
  : rate_state :=
  let rate := guess in
  let '(y, f) := residual periods payment present future type rate 0 in
  let y0 := present + payment * periods + future in
  let y1 := present * f + payment * (1 / rate + type) * (f - 1) + future in
  {| st_rate := rate; st_x0 := 0; st_x1 := rate; st_y0 := y0; st_y1 := y1;
     st_y := y; st_f := f; st_i := 0 |}.

Definition RATE_cond (s : rate_state) : bool :=
  (abs (st_y0 s - st_y1 s) >? epsMax) && (st_i s <? iterMax)%nat.

Definition RATE_step (periods payment present future type : number)
  (s : rate_state) : rate_state :=
  let rate := (st_y1 s * st_x0 s - st_y0 s * st_x1 s) / (st_y1 s - st_y0 s) in
  let x0 := st_x1 s in
  let x1 := rate in
  let '(y, f) := residual periods payment present future type rate (st_f s) in
  let y0 := st_y1 s in
  let y1 := y in
  {| st_rate := rate; st_x0 := x0; st_x1 := x1; st_y0 := y0; st_y1 := y1;
     st_y := y; st_f := f; st_i := S (st_i s) |}.

(** The [while] loop; [fuel] bounds the number of turns the model may take.
    [RATE] gives it [iterMax] turns, which the test [i < iterMax] never lets
    it exceed. *)
Fixpoint RATE_loop (periods payment present future type : number)
  (fuel : nat) (s : rate_state) : rate_state :=
  match fuel with
  | O => s
  | S fuel' =>
      if RATE_cond s then
        RATE_loop periods payment present future type fuel'
          (RATE_step periods payment present future type s)
      else s
  end.

Definition RATE (periods payment present : number)
  (future type guess : option number) : number :=
  let guess := default 0.01 guess in
  let future := default 0 future in
  let type := default 0 type in
  st_rate (RATE_loop periods payment present future type iterMax
             (RATE_init periods payment present future type guess)).

(** *** EFFECT and NOMINAL

    These two return a number or one of the strings ['#VALUE!'], ['#NUM!']. *)

Inductive result : Type :=
| Num (x : number)
| Str (s : string).

Definition is_error (r : result) : bool :=
  match r with Str _ => true | Num _ => false end.

Definition EFFECT (rate periods : number) : result :=
  if isNaN rate || isNaN periods then Str "#VALUE!"
  else if (rate <=? 0) || (periods <? 1) then Str "#NUM!"
  else
    let periods := parseInt10 periods in
    Num (pow (1 + rate / periods) periods - 1).

Definition NOMINAL (rate periods : number) : result :=
  if isNaN rate || isNaN periods then Str "#VALUE!"
  else if (rate <=? 0) || (periods <? 1) then Str "#NUM!"
  else
    let periods := parseInt10 periods in
    Num ((pow (rate + 1) (1 / periods) - 1) * periods).

(** The arguments the two guards turn away: a NaN, a rate that is at most
    0, a period count below 1 (each of the last two includes -Infinity). *)
Definition rejected (rate periods : number) : Prop :=
  rate = NaN \/ periods = NaN
  \/ rate = NInf \/ (exists r : R, rate = Fin r /\ r <= 0)
  \/ periods = NInf \/ (exists p : R, periods = Fin p /\ p < 1).

End Excel.

(** ** Devices of the statements below *)

Module Aux.
Import JS Excel.

(** [total f n] is [f 1 + ... + f n], accumulated from 0 as a loop
    [for (p = 1; p <= n; p++) total += f(p)] does. *)
Fixpoint total (f : nat -> number) (n : nat) : number :=
  match n with
  | O => Fin 0
  | S k => add (total f k) (f (S k))
  end.

(** The state with the signs of the residuals changed. *)
Definition flip (s : rate_state) : rate_state :=
  mk_rate_state (st_rate s) (st_x0 s) (st_x1 s) (neg (st_y0 s))
    (neg (st_y1 s)) (neg (st_y s)) (st_f s) (st_i s).

(** The shape of a state whose estimates and residuals are finite. *)
Definition finite_state (s : rate_state) (x0 x1 a b : R) (i : nat) : Prop :=
  st_x0 s = Fin x0 /\ st_x1 s = Fin x1 /\ st_y0 s = Fin a /\ st_y1 s = Fin b
  /\ st_i s = i.

End Aux.

(** ** The same functions on binary64 numbers

    [float] is IEEE 754 binary64 with round to nearest, ties to even, as a
    JavaScript engine computes [+], [-], [*], [/], the comparisons and
    [isNaN].  [Math.pow] and [parseInt] are library functions: the
    embedding takes them as parameters. *)

Module B64.
Local Open Scope float_scope.

Inductive result : Type :=
| Num (x : float)
| Str (s : string).

Section Library.
Variable Math_pow : float -> float -> float.
Variable parseInt : float -> float.

Definition default (d : float) (v : option float) : float :=
  match v with None => d | Some x => x end.

Definition FV (rate periods payment value : float) (type : option float)
  : float :=
  let type := default 0 type in
  let result :=
    if rate =? 0 then
      value + payment * periods
    else
      let term := Math_pow (1 + rate) periods in
      if type =? 1 then
        value * term + payment * (1 + rate) * (term - 1) / rate
      else
        value * term + payment * (term - 1) / rate in
  - result.

Definition PMT (rate periods present : float) (future type : option float)
  : float :=
  let type := default 0 type in
  let future := default 0 future in
  let result :=
    if rate =? 0 then
      (present + future) / periods
    else
      let term := Math_pow (1 + rate) periods in
      if type =? 1 then
        (future * rate / (term - 1) + present * rate / (1 - 1 / term))
        / (1 + rate)
      else
        future * rate / (term - 1) + present * rate / (1 - 1 / term) in
  - result.

Definition IPMT (rate period periods present : float)
  (future type : option float) : float :=
  let type' := default 0 type in
  let payment := PMT rate periods present future (Some type') in
  let interest :=
    if period =? 1 then
      if type' =? 1 then 0 else - present
    else
      if type' =? 1 then
        FV rate (period - 2) payment present (Some 1) - payment
      else
        FV rate (period - 1) payment present (Some 0) in
  interest * rate.

Definition PPMT (rate period periods present : float)
  (future type : option float) : float :=
  PMT rate periods present future type
  - IPMT rate period periods present future type.

Definition EFFECT (rate periods : float) : result :=
  if (is_nan rate || is_nan periods)%bool then Str "#VALUE!"
  else if ((rate <=? 0) || (periods <? 1))%bool then Str "#NUM!"
  else
    let periods := parseInt periods in
    Num (Math_pow (1 + rate / periods) periods - 1).

End Library.

(** *** The library, where its results are exact

    [Math.pow] is only required to approximate the power, and engines
    differ in the last digit where the power is not a binary64 number.
    [pow_where_exact] covers the exponents that are natural numbers: 1 for
    the exponent 0, the base for the exponent 1, and for a positive base
    and a larger exponent the repeated product, kept only if it is the
    exact power (checked on the integer mantissas).  Everything else is
    left out (NaN). *)

Definition integer_value (x : float) : option Z :=
  match Prim2SF x with
  | S754_zero _ => Some 0%Z
  | S754_finite s m e =>
      let z := if (0 <=? e)%Z then (Zpos m * 2 ^ e)%Z
               else Z.shiftr (Zpos m) (- e) in
      if ((0 <=? e)%Z || (Z.shiftl z (- e) =? Zpos m)%Z)%bool
      then Some (if s then (- z)%Z else z) else None
  | _ => None
  end.

Fixpoint product (x : float) (n : nat) : float :=
  match n with
  | O => 1
  | S k => x * product x k
  end.

Definition exact_power (base : float) (n : nat) : float :=
  let r := product base n in
  match Prim2SF base, Prim2SF r with
  | S754_finite false m e, S754_finite false m' e' =>
      let M := (Zpos m ^ Z.of_nat n)%Z in
      let E := (e * Z.of_nat n)%Z in
      if (if (E <=? e')%Z then (Zpos m' * 2 ^ (e' - E) =? M)%Z
          else (Zpos m' =? M * 2 ^ (E - e'))%Z)
      then r else nan
  | _, _ => nan
  end.

Definition pow_where_exact (base exponent : float) : float :=
  match integer_value exponent with
  | Some 0%Z => 1
  | Some 1%Z => base
  | Some (Zpos n) => exact_power base (Pos.to_nat n)
  | _ => nan
  end.

(** [parseInt(x, 10)] on a number printed in positional notation, that is
    0 or [1e-6 <= |x| < 1e21]: the digits before the point, [x] with its
    fraction dropped.  A number with a fraction is below [2^53], so its
    integer part fits the 63-bit integers.  Everything else is left out
    (NaN; for NaN and the infinities, which print as words, that is the
    result). *)
Definition parseInt_positional (x : float) : float :=
  match Prim2SF x with
  | S754_zero _ => 0
  | S754_finite s m e =>
      if ((0x1.0c6f7a0b5ed8dp-20 <=? abs x) && (abs x <? 1e21))%bool then
        if (0 <=? e)%Z then x
        else
          let v := of_uint63 (Uint63.of_Z (Z.shiftr (Zpos m) (- e))) in
          if s then - v else v
      else nan
  | _ => nan
  end.

End B64.

(** ** Facts about the arithmetic of numbers *)

Module JSFacts.
Import JS.

Lemma Rzero_0 : Rzero 0 = true.
Proof. unfold Rzero. destruct (Req_dec_T 0 0); [reflexivity | lra]. Qed.

Lemma Rzero_neq (r : R) : r <> 0 -> Rzero r = false.
Proof. intros H. unfold Rzero. destruct (Req_dec_T r 0); [contradiction | reflexivity]. Qed.

Lemma Rzero_spec (r : R) : Rzero r = true <-> r = 0.
Proof.
  unfold Rzero. destruct (Req_dec_T r 0); split; intros; auto; discriminate.
Qed.

Lemma Rneg_lt (r : R) : r < 0 -> Rneg r = true.
Proof. intros H. unfold Rneg. destruct (Rlt_dec r 0); [reflexivity | lra]. Qed.

Lemma Rneg_ge (r : R) : 0 <= r -> Rneg r = false.
Proof. intros H. unfold Rneg. destruct (Rlt_dec r 0); [lra | reflexivity]. Qed.

Lemma Rzero_spec_true (r : R) : r = 0 -> Rzero r = true.
Proof. apply Rzero_spec. Qed.

Lemma seq_Fin (a b : R) : seq (Fin a) (Fin b) = true <-> a = b.
Proof.
  simpl. destruct (Req_dec_T a b); split; intros; auto; discriminate.
Qed.

Lemma seq_Fin_neq (a b : R) : a <> b -> seq (Fin a) (Fin b) = false.
Proof.
  intros H. simpl. destruct (Req_dec_T a b); [contradiction | reflexivity].
Qed.

Lemma lt_Fin (a b : R) : lt (Fin a) (Fin b) = true <-> a < b.
Proof.
  simpl. destruct (Rlt_dec a b); split; intros; auto; discriminate.
Qed.

Lemma le_Fin (a b : R) : le (Fin a) (Fin b) = true <-> a <= b.
Proof.
  unfold le. rewrite orb_true_iff, lt_Fin, seq_Fin. unfold Rle. tauto.
Qed.

Lemma div_Fin (a b : R) : b <> 0 -> div (Fin a) (Fin b) = Fin (a / b).
Proof. intros H. simpl. rewrite (Rzero_neq b H). reflexivity. Qed.

Lemma pow_Fin_pos (b e : R) : 0 < b -> pow (Fin b) (Fin e) = Fin (Rpower b e).
Proof.
  intros Hb. unfold pow. destruct (Rzero e) eqn:He.
  - apply Rzero_spec in He. subst e. now rewrite Rpower_O.
  - rewrite Rzero_neq by lra. rewrite Rneg_ge by lra. reflexivity.
Qed.

Lemma div_by_zero (a : R) : a <> 0 -> div (Fin a) (Fin 0) = Inf (Rneg a).
Proof. intros H. unfold div. now rewrite Rzero_0, (Rzero_neq a H). Qed.

Lemma mul_Fin_Inf (a : R) (t : bool) :
  a <> 0 -> mul (Fin a) (Inf t) = Inf (xorb (Rneg a) t).
Proof. intros H. unfold mul. now rewrite (Rzero_neq a H). Qed.

Lemma mul_Inf_Fin (s : bool) (b : R) :
  b <> 0 -> mul (Inf s) (Fin b) = Inf (xorb s (Rneg b)).
Proof. intros H. unfold mul. now rewrite (Rzero_neq b H). Qed.

Lemma mul_Inf_0 (s : bool) : mul (Inf s) (Fin 0) = NaN.
Proof. unfold mul. now rewrite Rzero_0. Qed.

End JSFacts.

(** ** Payment and future value *)

Module Amortization.
Import JS Excel JSFacts.

Lemma Rpower_neq_1 (b e : R) : 0 < b -> b <> 1 -> e <> 0 -> Rpower b e <> 1.
Proof.
  intros Hb Hb1 He H. unfold Rpower in H. rewrite <- exp_0 in H.
  apply exp_inv in H. apply Rmult_integral in H. destruct H as [H | H].
  - contradiction.
  - apply Hb1. apply ln_inv; [assumption | lra |]. now rewrite ln_1.
Qed.

Lemma Rpower_pos (b e : R) : 0 < Rpower b e.
Proof. unfold Rpower. apply exp_pos. Qed.

(** C1. For every rate with [rate <> 0] and [1 + rate > 0], every
    [periods > 0] and every present value [pv], the payment computed by PMT
    (future 0, type 0) brings [pv] to a future value of exactly 0:
    [FV(rate, periods, PMT(rate, periods, pv, 0, 0), pv, 0) = 0]. *)
Theorem FV_of_PMT_is_zero (rate periods pv : R) :
  rate <> 0 -> 0 < 1 + rate -> 0 < periods ->
  FV rate periods (PMT rate periods pv (Some (Fin 0)) (Some (Fin 0))) pv
     (Some (Fin 0))
  = Fin 0.
Proof.
  intros Hr H1r Hn.
  assert (Ht1 : Rpower (1 + rate) periods <> 1)
    by (apply Rpower_neq_1; lra).
  pose proof (Rpower_pos (1 + rate) periods) as Htpos.
  unfold FV, PMT, default.
  rewrite (seq_Fin_neq rate 0 Hr), (seq_Fin_neq 0 1) by lra.
  cbn [add]. rewrite (pow_Fin_pos _ _ H1r).
  set (t := Rpower (1 + rate) periods) in *.
  cbn [add sub mul neg].
  rewrite (div_Fin 1 t) by lra. cbn [add neg].
  rewrite !div_Fin by (try lra; intros E; apply Ht1; field_simplify_eq in E; lra).
  cbn [add sub mul neg]. rewrite div_Fin by assumption. cbn [add neg].
  apply f_equal. field. repeat split; lra.
Qed.

Lemma FV_of_PMT_is_zero_witness :
  (0.05 <> 0 /\ 0 < 1 + 0.05 /\ 0 < 12) /\
  FV 0.05 12 (PMT 0.05 12 1000 (Some (Fin 0)) (Some (Fin 0))) 1000
     (Some (Fin 0))
  = Fin 0.
Proof.
  split; [lra | apply (FV_of_PMT_is_zero 0.05 12 1000); lra].
Defined.

(** PV on real arguments, in closed form. *)
Lemma PV_real (rate periods payment future type : R) :
  0 < 1 + rate ->
  PV rate periods payment future (Some (Fin type))
  = Fin (if Req_dec_T rate 0 then - payment * periods - future
         else ((1 - Rpower (1 + rate) periods) / rate * payment
               * (1 + rate * type) - future) / Rpower (1 + rate) periods).
Proof.
  intros H1r. unfold PV, default. cbn [seq].
  destruct (Req_dec_T rate 0) as [E | E].
  - cbn [add sub mul neg]. apply f_equal. lra.
  - pose proof (Rpower_pos (1 + rate) periods) as Htpos.
    cbn [add]. rewrite (pow_Fin_pos _ _ H1r). cbn [add sub mul neg].
    rewrite div_Fin by assumption. cbn [add sub mul neg].
    rewrite div_Fin by lra. apply f_equal. field. split; lra.
Qed.

(** C6. FV inverts PV: for every rate above -1, every periods, payment and
    future, and type 0 or 1,
    [FV(rate, periods, payment, PV(rate, periods, payment, future, type), type)]
    is exactly [future]; the branch [rate = 0] is included. *)
Theorem FV_inverts_PV (rate periods payment future type : R) :
  -1 < rate -> type = 0 \/ type = 1 ->
  FV rate periods payment
     (PV rate periods payment future (Some (Fin type))) (Some (Fin type))
  = Fin future.
Proof.
  intros Hr Ht. rewrite PV_real by lra. unfold FV, default. cbn [seq].
  destruct (Req_dec_T rate 0) as [E | E].
  - cbn [add mul neg]. apply f_equal. lra.
  - assert (H1r : 0 < 1 + rate) by lra.
    pose proof (Rpower_pos (1 + rate) periods) as Htpos.
    cbn [add]. rewrite (pow_Fin_pos _ _ H1r).
    set (t := Rpower (1 + rate) periods) in *.
    destruct Ht as [-> | ->].
    + destruct (Req_dec_T 0 1) as [? | _]; [lra |].
      cbn [add sub mul neg]. rewrite div_Fin by assumption. cbn [add neg].
      apply f_equal. field. split; lra.
    + destruct (Req_dec_T 1 1) as [_ | ?]; [| lra].
      cbn [add sub mul neg]. rewrite div_Fin by assumption. cbn [add neg].
      apply f_equal. field. split; lra.
Qed.

Lemma FV_inverts_PV_witness :
  (-1 < 0.05 /\ (1 = 0 \/ 1 = 1)) /\
  FV 0.05 12 (Fin (-100)) (PV 0.05 12 (Fin (-100)) 250 (Some (Fin 1)))
     (Some (Fin 1))
  = Fin 250.
Proof.
  split; [split; [lra | right; reflexivity] |].
  apply (FV_inverts_PV 0.05 12 (-100) 250 1); [lra | right; reflexivity].
Defined.

End Amortization.

(** ** Principal and interest *)

Module Split.
Import JS Excel JSFacts Amortization.

Lemma FV_finite (rate periods payment value type : R) :
  -1 < rate ->
  is_finite (FV rate periods payment value (Some (Fin type))) = true.
Proof.
  intros Hr. unfold FV, default. cbn [seq].
  destruct (Req_dec_T rate 0) as [E | E]; [reflexivity |].
  cbn [add]. rewrite pow_Fin_pos by lra.
  destruct (Req_dec_T type 1); cbn [add sub mul neg];
    rewrite div_Fin by assumption; reflexivity.
Qed.

Lemma PMT_finite (rate periods present future type : R) :
  -1 < rate -> periods <> 0 ->
  is_finite (PMT rate periods present (Some (Fin future)) (Some (Fin type)))
  = true.
Proof.
  intros Hr Hn. unfold PMT, default. cbn [seq].
  destruct (Req_dec_T rate 0) as [E | E].
  - cbn [add]. rewrite div_Fin by assumption. reflexivity.
  - assert (Ht1 : Rpower (1 + rate) periods <> 1)
      by (apply Rpower_neq_1; lra).
    pose proof (Rpower_pos (1 + rate) periods) as Htpos.
    cbn [add]. rewrite pow_Fin_pos by lra.
    set (t := Rpower (1 + rate) periods) in *.
    assert (Hd : 1 + - (1 / t) <> 0).
    { intros H. apply Ht1. field_simplify_eq in H; lra. }
    destruct (Req_dec_T type 1); cbn [add sub mul neg];
      rewrite (div_Fin 1 t) by lra; cbn [add neg];
      rewrite !div_Fin by (assumption || lra); cbn [add];
      rewrite ?div_Fin by lra; reflexivity.
Qed.

Lemma is_finite_Fin (x : number) : is_finite x = true -> exists v, x = Fin v.
Proof. destruct x; try discriminate. intros _. now exists r. Qed.

Lemma IPMT_finite (rate period periods present future type : R) :
  -1 < rate -> periods <> 0 ->
  is_finite (IPMT rate period periods present (Some (Fin future))
               (Some (Fin type))) = true.
Proof.
  intros Hr Hn. unfold IPMT. cbn [default].
  destruct (is_finite_Fin _ (PMT_finite rate periods present future type Hr Hn))
    as [pay ->].
  destruct (seq period 1).
  - destruct (seq type 1); reflexivity.
  - destruct (seq type 1); cbn [sub add neg].
    + destruct (is_finite_Fin _
        (FV_finite rate (period + - (2)) pay present 1 Hr)) as [v ->].
      reflexivity.
    + destruct (is_finite_Fin _
        (FV_finite rate (period + - (1)) pay present 0 Hr)) as [v ->].
      reflexivity.
Qed.

(** C9 (as amended). Under exact real arithmetic: PPMT is PMT minus IPMT,
    so adding IPMT back gives PMT, under [===], exactly when IPMT is a
    finite number and PMT is not NaN; this holds for every rate, period,
    periods, present, future and type, given or left out. *)
Theorem PPMT_plus_IPMT (rate period periods present : number)
  (future type : option number) :
  seq (add (PPMT rate period periods present future type)
           (IPMT rate period periods present future type))
      (PMT rate periods present future type) = true
  <-> is_finite (IPMT rate period periods present future type) = true
      /\ isNaN (PMT rate periods present future type) = false.
Proof.
  unfold PPMT.
  destruct (PMT rate periods present future type) as [| s | a],
    (IPMT rate period periods present future type) as [| t | b];
    cbn [sub add neg seq is_finite isNaN].
  all: try (split; [discriminate | intros [? ?]; discriminate]).
  - destruct s, t; cbn [negb Bool.eqb seq];
      (split; [discriminate | intros [? ?]; discriminate]).
  - rewrite Bool.eqb_reflx. split; [intros _; split |]; reflexivity.
  - destruct t; cbn [negb Bool.eqb seq];
      (split; [discriminate | intros [? ?]; discriminate]).
  - destruct (Req_dec_T (a + - b + b) a) as [_ | N]; [| exfalso; apply N; lra].
    split; [intros _; split |]; reflexivity.
Qed.

Lemma Int_part_IZR (z : Z) : Int_part (IZR z) = z.
Proof. symmetry. apply Int_part_spec. lra. Qed.

Lemma Rpower_1_l (e : R) : Rpower 1 e = 1.
Proof. unfold Rpower. rewrite ln_1, Rmult_0_r. apply exp_0. Qed.

Lemma pow_m1_2 : pow (Fin (1 + -2)) (Fin 2) = Fin 1.
Proof.
  unfold pow, is_int. rewrite (Rzero_neq 2), (Rzero_neq (1 + -2)) by lra.
  rewrite (Rneg_lt (1 + -2)) by lra. rewrite (Int_part_IZR 2).
  destruct (Req_dec_T 2 2) as [_ | N]; [| lra]. cbn [Z.odd].
  replace (- (1 + -2)) with 1 by lra. rewrite Rpower_1_l.
  apply f_equal. lra.
Qed.

(** At rate -2 over 2 periods the annuity factor [(1 + rate)^periods] is 1:
    PMT divides zero by zero and is NaN, which is not [===] to itself. *)
Lemma PMT_NaN_example :
  PMT (Fin (-2)) 2 100 (Some (Fin 0)) (Some (Fin 0)) = NaN.
Proof.
  unfold PMT, default. rewrite (seq_Fin_neq (-2) 0), (seq_Fin_neq 0 1) by lra.
  cbn [add]. rewrite pow_m1_2. cbn [add sub mul neg].
  rewrite (div_Fin 1 1) by lra. cbn [add neg].
  unfold div at 1. rewrite !Rzero_spec_true by lra. reflexivity.
Qed.

Lemma PPMT_plus_IPMT_counterexample :
  seq (add (PPMT (Fin (-2)) 1 2 100 (Some (Fin 0)) (Some (Fin 0)))
           (IPMT (Fin (-2)) 1 2 100 (Some (Fin 0)) (Some (Fin 0))))
      (PMT (Fin (-2)) 2 100 (Some (Fin 0)) (Some (Fin 0))) = false.
Proof. unfold PPMT. rewrite PMT_NaN_example. reflexivity. Qed.

(** On real arguments with [rate > -1] and [periods <> 0] both PMT and IPMT
    are finite, so the sum is PMT for every period. *)
Lemma PPMT_plus_IPMT_real (rate period periods present future type : R) :
  -1 < rate -> periods <> 0 ->
  exists p i : R,
    PMT rate periods present (Some (Fin future)) (Some (Fin type)) = Fin p
    /\ IPMT rate period periods present (Some (Fin future)) (Some (Fin type))
       = Fin i
    /\ PPMT rate period periods present (Some (Fin future)) (Some (Fin type))
       = Fin (p - i)
    /\ add (PPMT rate period periods present (Some (Fin future))
              (Some (Fin type)))
           (IPMT rate period periods present (Some (Fin future))
              (Some (Fin type)))
       = Fin p.
Proof.
  intros Hr Hn. unfold PPMT.
  destruct (is_finite_Fin _
    (IPMT_finite rate period periods present future type Hr Hn)) as [i ->].
  destruct (is_finite_Fin _
    (PMT_finite rate periods present future type Hr Hn)) as [p ->].
  exists p, i. cbn [add sub neg].
  repeat split; apply f_equal; lra.
Qed.

Lemma PPMT_plus_IPMT_real_witness :
  exists p i : R,
    PMT 0.05 12 1000 (Some (Fin 0)) (Some (Fin 0)) = Fin p
    /\ IPMT 0.05 3 12 1000 (Some (Fin 0)) (Some (Fin 0)) = Fin i
    /\ PPMT 0.05 3 12 1000 (Some (Fin 0)) (Some (Fin 0)) = Fin (p - i)
    /\ add (PPMT 0.05 3 12 1000 (Some (Fin 0)) (Some (Fin 0)))
           (IPMT 0.05 3 12 1000 (Some (Fin 0)) (Some (Fin 0)))
       = Fin p.
Proof.
  apply (PPMT_plus_IPMT_real 0.05 3 12 1000 0 0); lra.
Defined.

(** With a zero rate and a nonzero number of periods, PV, FV, PMT, IPMT
    and PPMT take their linear branch and return finite numbers. *)
Lemma rate_zero_finite (period periods payment present future type : R) :
  periods <> 0 ->
  is_finite (PV 0 periods payment future (Some (Fin type))) = true
  /\ is_finite (FV 0 periods payment present (Some (Fin type))) = true
  /\ is_finite (PMT 0 periods present (Some (Fin future)) (Some (Fin type)))
     = true
  /\ is_finite (IPMT 0 period periods present (Some (Fin future))
                  (Some (Fin type))) = true
  /\ is_finite (PPMT 0 period periods present (Some (Fin future))
                  (Some (Fin type))) = true.
Proof.
  intros Hn.
  assert (Hr : -1 < 0) by lra.
  pose proof (PMT_finite 0 periods present future type Hr Hn) as Hp.
  pose proof (IPMT_finite 0 period periods present future type Hr Hn) as Hi.
  split; [| split; [| split; [| split]]].
  - rewrite PV_real by lra. reflexivity.
  - now apply FV_finite.
  - exact Hp.
  - exact Hi.
  - unfold PPMT. destruct (is_finite_Fin _ Hp) as [p ->].
    destruct (is_finite_Fin _ Hi) as [i ->]. reflexivity.
Qed.

Lemma rate_zero_finite_witness :
  is_finite (PMT 0 12 1000 (Some (Fin 0)) (Some (Fin 0))) = true.
Proof.
  apply (rate_zero_finite 1 12 (-100) 1000 0 0). lra.
Defined.

(** The zero-rate branch of PV is the linear formula, whether the type is
    given or left out. *)
Lemma PV_zero_rate (periods payment future : R) (type : option number) :
  PV 0 periods payment future type = Fin (- payment * periods - future).
Proof.
  unfold PV. rewrite (proj2 (seq_Fin 0 0) eq_refl).
  cbn [add sub mul neg]. apply f_equal. lra.
Qed.

End Split.

(** ** Number of periods *)

Module Periods.
Import JS Excel JSFacts.

(** The logarithm of a number that is not finite and positive is not
    finite. *)
Lemma log_finite (q : number) :
  is_finite (log q) = lt 0 q && is_finite q.
Proof.
  destruct q as [| s | r]; cbn [log lt is_finite]; try reflexivity.
  - destruct s; reflexivity.
  - unfold Rzero, Rneg.
    destruct (Req_dec_T r 0), (Rlt_dec r 0), (Rlt_dec 0 r);
      try reflexivity; lra.
Qed.

(** A quotient whose numerator is not finite is not finite. *)
Lemma div_not_finite (x y : number) :
  is_finite x = false -> is_finite (div x y) = false.
Proof.
  destruct x as [| s | a], y as [| t | b]; try discriminate; reflexivity.
Qed.

Lemma le_0_not_pos (q : number) : le q 0 = true -> lt 0 q = false.
Proof.
  destruct q as [| s | r]; unfold le; cbn [lt seq]; try discriminate.
  - destruct s; [reflexivity | discriminate].
  - destruct (Rlt_dec r 0), (Req_dec_T r 0), (Rlt_dec 0 r);
      try reflexivity; try discriminate; lra.
Qed.

(** C5 (as amended). With [num] and [den] as NPER computes them: whenever
    [num / den <= 0] the result of NPER is not a finite number, at every
    rate; at rate -1 the result is finite exactly when [num / den] is a
    positive finite number. *)
Theorem NPER_non_finite (rate payment present : number)
  (future type : option number) :
  let q := div (NPER_num rate payment (default 0 future) (default 0 type))
               (NPER_den rate payment present (default 0 type)) in
  (le q 0 = true ->
   is_finite (NPER rate payment present future type) = false)
  /\ (rate = Fin (-1) ->
      is_finite (NPER rate payment present future type)
      = lt 0 q && is_finite q).
Proof.
  intros q. unfold NPER. fold q. split.
  - intros Hq. apply div_not_finite. rewrite log_finite.
    now rewrite (le_0_not_pos q Hq).
  - intros ->. cbn [add]. unfold log at 2.
    rewrite Rzero_spec_true by lra. rewrite <- log_finite.
    destruct (log q); reflexivity.
Qed.

Lemma NPER_non_finite_witness :
  is_finite (NPER 0.05 (Fin (-10)) 1000 (Some (Fin 0)) (Some (Fin 0))) = false.
Proof.
  apply (proj1 (NPER_non_finite 0.05 (Fin (-10)) 1000
                  (Some (Fin 0)) (Some (Fin 0)))).
  unfold NPER_num, NPER_den, default. cbn [add sub mul neg].
  rewrite div_Fin by lra. apply le_Fin.
  lra.
Defined.

(** At rate -1, with [num / den = 100 / 150], NPER divides a finite
    logarithm by [log 0 = -Infinity] and returns 0. *)
Lemma NPER_rate_minus_one_finite :
  NPER (Fin (-1)) 100 (Fin (-50)) (Some (Fin 0)) (Some (Fin 0)) = Fin 0.
Proof.
  unfold NPER, NPER_num, NPER_den, default. cbn [add sub mul neg].
  rewrite div_Fin by lra.
  assert (Hq : 0 < (100 * (1 + -1 * 0) + - (0 * -1))
                   / (-50 * -1 + 100 * (1 + -1 * 0))).
  { lra. }
  unfold log. rewrite (Rzero_neq _ (Rgt_not_eq _ _ Hq)).
  rewrite (Rneg_ge _ (Rlt_le _ _ Hq)).
  rewrite Rzero_spec_true by lra. reflexivity.
Qed.

(** C7. NPER has no branch for a zero rate: on real arguments it computes
    [log(num / den) / log(1 + 0)] with [num = den = payment], that is
    [0 / 0] (or the logarithm of [0 / 0]), and returns NaN. *)
Theorem NPER_rate_zero_NaN (payment present future type : R) :
  NPER 0 payment present (Some (Fin future)) (Some (Fin type)) = NaN.
Proof.
  unfold NPER, NPER_num, NPER_den, default. cbn [add sub mul neg].
  set (n := payment * (1 + 0 * type) + - (future * 0)).
  set (d := present * 0 + payment * (1 + 0 * type)).
  assert (E : n = d) by (unfold n, d; lra).
  unfold div at 2. destruct (Rzero d) eqn:Hd.
  - apply Rzero_spec in Hd. rewrite Rzero_spec_true by lra. reflexivity.
  - assert (Hd' : d <> 0) by (intros H; now rewrite Rzero_spec_true in Hd).
    assert (H1 : n / d = 1) by (rewrite E; now field).
    rewrite H1. unfold log. rewrite !Rzero_neq by lra.
    rewrite !Rneg_ge by lra. unfold div.
    rewrite !Rzero_spec_true; [reflexivity | apply ln_1 |].
    replace (1 + 0) with 1 by lra. apply ln_1.
Qed.

End Periods.

(** ** Nominal and effective rates *)

Module Conversion.
Import JS Excel JSFacts Amortization Split.

Lemma Int_part_pos (x : R) : 1 <= x -> (1 <= Int_part x)%Z.
Proof.
  intros Hx. destruct (base_Int_part x) as [_ H].
  assert (0 < IZR (Int_part x)) by lra.
  apply lt_IZR in H0. lia.
Qed.

Lemma lead_digit_pos (a : R) : 0 < a -> (1 <= lead_digit a)%Z.
Proof.
  intros Ha. unfold lead_digit. apply Int_part_pos.
  set (e := IZR (Int_part (ln a / ln 10))).
  assert (Hln10 : 0 < ln 10) by (rewrite <- ln_1; apply ln_increasing; lra).
  assert (He : e * ln 10 <= ln a).
  { destruct (base_Int_part (ln a / ln 10)) as [H _]. fold e in H.
    apply (Rmult_le_compat_r (ln 10)) in H; [| lra].
    replace (ln a / ln 10 * ln 10) with (ln a) in H by (field; lra).
    exact H. }
  assert (Hp : Rpower 10 e <= a).
  { unfold Rpower. apply Rle_trans with (Rtrigo_def.exp (ln a)).
    - destruct He as [He | He];
        [left; now apply exp_increasing | right; now rewrite He].
    - rewrite (exp_ln a Ha). lra. }
  pose proof (Rpower_pos 10 e) as Hpos.
  apply (Rmult_le_reg_r (Rpower 10 e)); [assumption |].
  replace (a / Rpower 10 e * Rpower 10 e) with a by (field; lra). lra.
Qed.

(** What [parseInt] returns for a number that passed the test
    [periods < 1]: an integer, at least 1. *)
Lemma parseInt10_ge_1 (x : R) :
  1 <= x -> exists m : Z, (1 <= m)%Z /\ parseInt10 (Fin x) = Fin (IZR m).
Proof.
  intros Hx. unfold parseInt10.
  rewrite Rzero_neq, (Rneg_ge x), (Rabs_pos_eq x) by lra.
  destruct (Rle_dec 1e-6 x) as [_ | N]; [| lra].
  destruct (Rlt_dec x 1e21) as [_ | _].
  - exists (Rtrunc x). split; [| reflexivity]. unfold Rtrunc.
    destruct (Rlt_dec x 0); [lra |]. now apply Int_part_pos.
  - exists (lead_digit x). split; [apply lead_digit_pos; lra |].
    apply f_equal. lra.
Qed.

(** Between 1 and 2 the digits before the point are the single digit 1. *)
Lemma parseInt10_1_2 (x : R) : 1 <= x < 2 -> parseInt10 (Fin x) = Fin 1.
Proof.
  intros Hx. unfold parseInt10.
  rewrite Rzero_neq, (Rabs_pos_eq x) by lra.
  destruct (Rle_dec 1e-6 x) as [_ | N]; [| lra].
  destruct (Rlt_dec x 1e21) as [_ | N]; [| lra].
  unfold Rtrunc. destruct (Rlt_dec x 0); [lra |].
  apply f_equal, f_equal. symmetry. apply Int_part_spec. lra.
Qed.

(** The two guards pass on a positive rate and a period count of at least
    1. *)
Lemma guards_pass (rate periods : R) :
  0 < rate -> 1 <= periods ->
  isNaN rate || isNaN periods = false
  /\ (le rate 0) || (lt periods 1) = false.
Proof.
  intros Hr Hp. split; [reflexivity |]. unfold le. cbn [lt seq].
  destruct (Rlt_dec rate 0), (Req_dec_T rate 0), (Rlt_dec periods 1);
    try reflexivity; lra.
Qed.

(** C10 (as amended). For every finite rate above 0 and every real
    [periodsPerYear] with [1 <= periodsPerYear < 2], EFFECT returns what it
    returns for one period per year: the guard [periods < 1] reads the
    untruncated value and [parseInt] then gives 1.  Under exact real
    arithmetic that result, [(1 + rate / 1)^1 - 1], is the rate itself. *)
Theorem EFFECT_one_period (rate periods : R) :
  0 < rate -> 1 <= periods < 2 ->
  EFFECT rate periods = EFFECT rate 1
  /\ EFFECT rate periods = Num (Fin rate).
Proof.
  intros Hr Hp.
  assert (H : forall p : R, 1 <= p < 2 -> EFFECT rate p = Num (Fin rate)).
  { intros p Hp'. unfold EFFECT.
    destruct (guards_pass rate p Hr (proj1 Hp')) as [-> ->].
    rewrite (parseInt10_1_2 p Hp').
    rewrite div_Fin by lra. cbn [add]. rewrite pow_Fin_pos by lra.
    rewrite Rpower_1 by lra. cbn [sub add neg]. do 2 apply f_equal. field. }
  split; [| now apply H]. rewrite (H periods Hp). symmetry. apply H. lra.
Qed.

Lemma EFFECT_one_period_witness :
  (0 < 0.05 /\ 1 <= 1.5 < 2)
  /\ EFFECT 0.05 1.5 = EFFECT 0.05 1
  /\ EFFECT 0.05 1.5 = Num (Fin 0.05).
Proof.
  split; [lra | apply (EFFECT_one_period 0.05 1.5); lra].
Defined.

Lemma Rpower_gt_1 (b e : R) : 1 < b -> 0 < e -> 1 < Rpower b e.
Proof.
  intros Hb He. unfold Rpower. rewrite <- exp_0. apply exp_increasing.
  apply Rmult_lt_0_compat; [assumption |].
  rewrite <- ln_1. apply ln_increasing; lra.
Qed.

(** The round trip for every real count of periods from 1 on: both calls
    truncate it to the same integer [m >= 1]. *)
Lemma EFFECT_NOMINAL_real (e k : R) :
  0 < e -> 1 <= k ->
  exists n : R, NOMINAL e k = Num (Fin n) /\ EFFECT n k = Num (Fin e).
Proof.
  intros He Hk. destruct (parseInt10_ge_1 k Hk) as (m & Hm & Hparse).
  assert (HM : 1 <= IZR m) by now apply IZR_le.
  set (M := IZR m) in *.
  pose proof (Rpower_gt_1 (e + 1) (1 / M)) as Hroot.
  assert (Hroot' : 1 < Rpower (e + 1) (1 / M)).
  { apply Hroot; [lra |]. apply Rdiv_lt_0_compat; lra. }
  exists ((Rpower (e + 1) (1 / M) + - (1)) * M). split.
  - unfold NOMINAL. destruct (guards_pass e k He Hk) as [-> ->].
    rewrite Hparse. rewrite div_Fin by lra. cbn [add].
    rewrite pow_Fin_pos by lra. reflexivity.
  - unfold EFFECT.
    assert (Hn : 0 < (Rpower (e + 1) (1 / M) + - (1)) * M)
      by (apply Rmult_lt_0_compat; lra).
    destruct (guards_pass _ k Hn Hk) as [-> ->].
    rewrite Hparse. rewrite div_Fin by lra. cbn [add].
    replace (1 + (Rpower (e + 1) (1 / M) + - (1)) * M / M)
      with (Rpower (e + 1) (1 / M)) by (field; lra).
    rewrite pow_Fin_pos by lra. rewrite Rpower_mult.
    replace (1 / M * M) with 1 by (field; lra).
    rewrite Rpower_1 by lra. cbn [sub add neg]. do 2 apply f_equal. lra.
Qed.

(** C8. For every effective rate [e > 0] and every integer [k >= 1],
    NOMINAL(e, k) is a number, and EFFECT of that number and [k] is the
    number [e]: neither call returns an error string. *)
Theorem EFFECT_NOMINAL_roundtrip (e : R) (k : Z) :
  0 < e -> (1 <= k)%Z ->
  exists n : R,
    NOMINAL e (IZR k) = Num (Fin n) /\ EFFECT n (IZR k) = Num (Fin e).
Proof.
  intros He Hk. apply EFFECT_NOMINAL_real; [assumption |]. now apply IZR_le.
Qed.

Lemma EFFECT_NOMINAL_roundtrip_witness :
  (0 < 0.05 /\ (1 <= 12)%Z) /\
  exists n : R, NOMINAL 0.05 12 = Num (Fin n) /\ EFFECT n 12 = Num (Fin 0.05).
Proof.
  split; [split; [lra | lia] |].
  apply (EFFECT_NOMINAL_roundtrip 0.05 12); [lra | lia].
Defined.

Lemma isNaN_spec (x : number) : isNaN x = true <-> x = NaN.
Proof. destruct x; cbn; split; intros; auto; discriminate. Qed.

Lemma le_0_spec (x : number) :
  le x 0 = true <-> x = NInf \/ exists r : R, x = Fin r /\ r <= 0.
Proof.
  destruct x as [| s | r].
  - split; [discriminate | intros [H | (r & H & _)]; discriminate].
  - destruct s; cbn.
    + split; [intros _; now left | reflexivity].
    + split; [discriminate | intros [H | (r & H & _)]; discriminate].
  - rewrite le_Fin. split.
    + intros H. right. now exists r.
    + intros [H | (r' & H & Hr)]; [discriminate | injection H as ->; lra].
Qed.

Lemma lt_1_spec (x : number) :
  lt x 1 = true <-> x = NInf \/ exists p : R, x = Fin p /\ p < 1.
Proof.
  destruct x as [| s | r].
  - split; [discriminate | intros [H | (r & H & _)]; discriminate].
  - destruct s; cbn.
    + split; [intros _; now left | reflexivity].
    + split; [discriminate | intros [H | (r & H & _)]; discriminate].
  - rewrite lt_Fin. split.
    + intros H. right. now exists r.
    + intros [H | (r' & H & Hr)]; [discriminate | injection H as ->; lra].
Qed.

Lemma guards_spec (rate periods : number) :
  isNaN rate || isNaN periods || (le rate 0 || lt periods 1) = true
  <-> rejected rate periods.
Proof.
  unfold rejected.
  rewrite !orb_true_iff, !isNaN_spec, le_0_spec, lt_1_spec. tauto.
Qed.

(** C4 (as amended). EFFECT and NOMINAL return an error string exactly
    when an argument is NaN, or the rate is at most 0, or the period count
    is below 1; on every other pair of arguments, +Infinity included, they
    return a number. *)
Theorem rate_conversion_errors (rate periods : number) :
  (is_error (EFFECT rate periods) = true <-> rejected rate periods)
  /\ (is_error (NOMINAL rate periods) = true <-> rejected rate periods).
Proof.
  rewrite <- guards_spec. unfold EFFECT, NOMINAL.
  destruct (isNaN rate || isNaN periods); cbn [orb is_error];
    [tauto |].
  destruct (le rate 0 || lt periods 1); cbn [is_error]; tauto.
Qed.

Lemma parseInt10_12 : parseInt10 (Fin 12) = Fin 12.
Proof.
  unfold parseInt10. rewrite Rzero_neq, (Rabs_pos_eq 12) by lra.
  destruct (Rle_dec 1e-6 12) as [_ | N]; [| lra].
  destruct (Rlt_dec 12 1e21) as [_ | N]; [| lra].
  unfold Rtrunc. destruct (Rlt_dec 12 0); [lra |].
  now rewrite (Int_part_IZR 12).
Qed.

(** An infinite rate is not turned away: [isNaN(Infinity)] is false and
    [Infinity <= 0] is false, and the result is the number Infinity. *)
Lemma EFFECT_infinite_rate : EFFECT PInf 12 = Num PInf.
Proof.
  unfold EFFECT, le. cbn [isNaN lt seq orb].
  destruct (Rlt_dec 12 1) as [? | _]; [lra |].
  rewrite parseInt10_12. cbn [div add]. rewrite (Rneg_ge 12) by lra.
  cbn [xorb]. unfold pow. rewrite (Rzero_neq 12), (Rneg_ge 12) by lra.
  reflexivity.
Qed.

End Conversion.

(** ** The secant iteration of RATE *)

Module Secant.
Import JS Excel JSFacts.

Section Loop.
Variables periods payment present future type : number.

Let step := RATE_step periods payment present future type.
Let loop := RATE_loop periods payment present future type.

Lemma RATE_step_i (s : rate_state) : st_i (step s) = S (st_i s).
Proof.
  unfold step, RATE_step.
  destruct (residual periods payment present future type _ (st_f s)).
  reflexivity.
Qed.

Lemma RATE_cond_close (s : rate_state) :
  le (abs (sub (st_y0 s) (st_y1 s))) epsMax = true -> RATE_cond s = false.
Proof.
  intros H. unfold RATE_cond, gt.
  destruct (abs (sub (st_y0 s) (st_y1 s))) as [| t | d];
    unfold le, epsMax in H |- *; cbn [lt seq orb andb negb] in H |- *;
    try discriminate.
  - destruct t; [reflexivity | discriminate].
  - destruct (Rlt_dec d 1e-10), (Req_dec_T d 1e-10), (Rlt_dec 1e-10 d);
      try reflexivity; try discriminate; lra.
Qed.

Lemma RATE_cond_exhausted (s : rate_state) :
  (iterMax <= st_i s)%nat -> RATE_cond s = false.
Proof.
  intros H. unfold RATE_cond.
  apply Nat.ltb_ge in H. rewrite H. apply andb_false_r.
Qed.

Lemma RATE_cond_i (s : rate_state) :
  RATE_cond s = true -> (st_i s < iterMax)%nat.
Proof.
  unfold RATE_cond. intros H. apply andb_true_iff in H.
  now apply Nat.ltb_lt.
Qed.

(** With fuel for the turns the counter still allows, the loop makes [n]
    turns, the first number of turns after which its test fails. *)
Lemma RATE_loop_turns (fuel : nat) :
  forall s : rate_state,
    (iterMax - st_i s <= fuel)%nat ->
    exists n : nat,
      (n <= iterMax - st_i s)%nat
      /\ loop fuel s = Nat.iter n step s
      /\ RATE_cond (Nat.iter n step s) = false
      /\ forall k : nat, (k < n)%nat -> RATE_cond (Nat.iter k step s) = true.
Proof.
  induction fuel as [| fuel IH]; intros s Hfuel.
  - exists 0%nat. cbn. repeat split; try lia.
    apply RATE_cond_exhausted. lia.
  - cbn [loop RATE_loop]. unfold loop. cbn [RATE_loop].
    destruct (RATE_cond s) eqn:Hc.
    + pose proof (RATE_cond_i s Hc) as Hi.
      destruct (IH (step s)) as (n & Hn & Hloop & Hstop & Hrun).
      { rewrite RATE_step_i. lia. }
      rewrite RATE_step_i in Hn.
      exists (S n). rewrite !Nat.iter_succ_r. repeat split.
      * lia.
      * exact Hloop.
      * exact Hstop.
      * intros [| k] Hk; [exact Hc |]. rewrite Nat.iter_succ_r.
        apply Hrun. lia.
    + exists 0%nat. cbn. repeat split; try lia. exact Hc.
Qed.

(** Fuel beyond the point where the test fails changes nothing. *)
Lemma RATE_loop_more_fuel (fuel : nat) :
  forall s : rate_state,
    RATE_cond (loop fuel s) = false ->
    forall extra : nat, loop (fuel + extra) s = loop fuel s.
Proof.
  induction fuel as [| fuel IH]; intros s Hstop extra.
  - cbn in Hstop. cbn. destruct extra; cbn; [reflexivity |].
    now rewrite Hstop.
  - unfold loop in *. cbn [RATE_loop Nat.add] in *.
    destruct (RATE_cond s); [now apply IH | reflexivity].
Qed.

Lemma iter_step_i (n : nat) (s : rate_state) :
  st_i (Nat.iter n step s) = (n + st_i s)%nat.
Proof.
  induction n as [| n IH]; [reflexivity |].
  rewrite Nat.iter_succ, RATE_step_i, IH. reflexivity.
Qed.

End Loop.

Lemma RATE_init_i (periods payment present future type guess : number) :
  st_i (RATE_init periods payment present future type guess) = 0%nat.
Proof.
  unfold RATE_init.
  destruct (residual periods payment present future type guess 0).
  reflexivity.
Qed.

(** C3. RATE returns on every input.  Its loop makes some number [n <= 50]
    of turns: the test holds before each of them and fails after the last,
    and it fails as soon as [|y0 - y1| <= 1e-10] or the counter has reached
    50.  The value returned is the current rate estimate of the state the
    loop stopped in, whichever of the two stopped it, and turns allowed
    beyond 50 would not change it. *)
Theorem RATE_terminates (periods payment present : number)
  (future type guess : option number) :
  let step :=
    RATE_step periods payment present (default 0 future) (default 0 type) in
  let s0 :=
    RATE_init periods payment present (default 0 future) (default 0 type)
      (default 0.01 guess) in
  (exists n : nat,
     (n <= 50)%nat
     /\ RATE periods payment present future type guess
        = st_rate (Nat.iter n step s0)
     /\ st_i (Nat.iter n step s0) = n
     /\ RATE_cond (Nat.iter n step s0) = false
     /\ forall k : nat, (k < n)%nat -> RATE_cond (Nat.iter k step s0) = true)
  /\ (forall extra : nat,
        st_rate (RATE_loop periods payment present (default 0 future)
                   (default 0 type) (iterMax + extra) s0)
        = RATE periods payment present future type guess)
  /\ (forall s : rate_state,
        le (abs (sub (st_y0 s) (st_y1 s))) epsMax = true
        \/ (50 <= st_i s)%nat ->
        RATE_cond s = false).
Proof.
  intros step s0.
  destruct (RATE_loop_turns periods payment present (default 0 future)
              (default 0 type) iterMax s0) as (n & Hn & Hloop & Hstop & Hrun);
    [lia |].
  fold step in Hloop, Hstop, Hrun.
  unfold s0 in Hn. rewrite RATE_init_i in Hn. fold s0 in Hn.
  split; [| split].
  - exists n. split; [| split; [| split; [| split]]].
    + unfold iterMax in Hn. lia.
    + unfold RATE. fold s0. rewrite Hloop. reflexivity.
    + unfold step. rewrite iter_step_i. unfold s0. rewrite RATE_init_i. lia.
    + exact Hstop.
    + exact Hrun.
  - intros extra. unfold RATE. fold s0. apply f_equal.
    apply RATE_loop_more_fuel. rewrite Hloop. exact Hstop.
  - intros s [H | H].
    + apply RATE_cond_close. exact H.
    + apply RATE_cond_exhausted. exact H.
Qed.

Lemma RATE_loop_S (periods payment present future type : number)
  (fuel : nat) (s : rate_state) :
  RATE_loop periods payment present future type (S fuel) s
  = if RATE_cond s
    then RATE_loop periods payment present future type fuel
           (RATE_step periods payment present future type s)
    else s.
Proof. reflexivity. Qed.

(** One turn of the loop is the secant update, and the new [y1] is the
    residual at the new rate. *)
Lemma RATE_step_secant (periods payment present future type : number)
  (s : rate_state) :
  let s' := RATE_step periods payment present future type s in
  st_rate s'
  = div (sub (mul (st_y1 s) (st_x0 s)) (mul (st_y0 s) (st_x1 s)))
        (sub (st_y1 s) (st_y0 s))
  /\ st_x0 s' = st_x1 s /\ st_x1 s' = st_rate s'
  /\ st_y0 s' = st_y1 s
  /\ st_y1 s'
     = fst (residual periods payment present future type (st_rate s')
              (st_f s)).
Proof.
  unfold RATE_step.
  destruct (residual periods payment present future type _ (st_f s))
    as [y f] eqn:E.
  cbn [st_rate st_x0 st_x1 st_y0 st_y1]. rewrite E.
  repeat split; reflexivity.
Qed.

(** A guess that is not below [epsMax] in absolute value starts the
    iteration at [x0 = 0], [y0 = present + payment * periods + future],
    [x1 = guess] and [y1] the residual at the guess. *)
Lemma RATE_init_large_guess
  (periods payment present future type guess : number) :
  lt (abs guess) epsMax = false ->
  let s0 := RATE_init periods payment present future type guess in
  st_x0 s0 = Fin 0
  /\ st_y0 s0 = add (add present (mul payment periods)) future
  /\ st_x1 s0 = guess
  /\ st_y1 s0
     = fst (residual periods payment present future type guess (Fin 0)).
Proof.
  intros H. unfold RATE_init, residual. rewrite H.
  repeat split; reflexivity.
Qed.

Lemma RATE_init_large_guess_witness :
  st_x1 (RATE_init 12 (Fin (-100)) 1000 0 0 0.01) = Fin 0.01.
Proof.
  apply (RATE_init_large_guess 12 (Fin (-100)) 1000 0 0 0.01).
  apply not_true_is_false. unfold abs, epsMax. rewrite lt_Fin.
  rewrite Rabs_pos_eq by lra. lra.
Defined.

(** C2. With the guess 0 (below [epsMax]) the branch before the loop
    computes the residual at the guess, 0, into [y] and leaves [f] at 0;
    [y1] is then assigned from the exponential formula with that [f] and
    is +Infinity, not the residual.  The loop makes one turn, its secant
    update is [(Infinity * 0 - 0 * 0) / (Infinity - 0)], and RATE returns
    NaN. *)
Theorem RATE_zero_guess :
  let s0 := RATE_init 10 (Fin (-100)) 1000 0 0 0 in
  fst (residual 10 (Fin (-100)) 1000 0 0 0 0) = Fin 0
  /\ st_y0 s0 = Fin 0
  /\ st_y1 s0 = PInf
  /\ RATE 10 (Fin (-100)) 1000 (Some (Fin 0)) (Some (Fin 0)) (Some (Fin 0))
     = NaN.
Proof.
  assert (Hsmall : lt (abs (Fin 0)) epsMax = true).
  { apply lt_Fin. rewrite Rabs_R0. lra. }
  assert (Hs0 : RATE_init 10 (Fin (-100)) 1000 0 0 0
                = mk_rate_state 0 0 0 (Fin 0) PInf (Fin 0) 0 0).
  { unfold RATE_init, residual. rewrite Hsmall.
    rewrite (div_by_zero 1), (Rneg_ge 1) by lra.
    cbn [add sub neg]. rewrite (mul_Fin_Inf (-100)), (Rneg_lt (-100)) by lra.
    cbn [xorb]. rewrite mul_Inf_Fin, Rneg_lt by lra. cbn [xorb mul add].
    f_equal; apply f_equal; lra. }
  cbv zeta. rewrite Hs0. cbn [st_y0 st_y1].
  split; [| split; [| split]]; try reflexivity.
  - unfold residual. rewrite Hsmall. cbn [fst add mul]. apply f_equal. lra.
  - unfold RATE, default. rewrite Hs0. unfold iterMax. rewrite RATE_loop_S.
    unfold RATE_cond at 1.
    cbn [st_y0 st_y1 st_i sub add neg abs gt lt negb Bool.eqb].
    change (0 <? 50)%nat with true. cbn [andb].
    unfold RATE_step, residual.
    cbn [st_y0 st_y1 st_x0 st_x1 st_f]. rewrite mul_Inf_0.
    cbn [sub add neg div abs lt exp log mul].
    rewrite RATE_loop_S. unfold RATE_cond.
    cbn [st_y0 st_y1 sub add neg abs gt lt andb st_rate].
    reflexivity.
Qed.

End Secant.

(** ** Closed forms on real arguments *)

Module ClosedForms.
Import JS Excel JSFacts Amortization Split.

(** FV on real arguments, in closed form. *)
Lemma FV_real (rate periods payment value type : R) :
  -1 < rate -> type = 0 \/ type = 1 ->
  FV rate periods payment value (Some (Fin type))
  = Fin (if Req_dec_T rate 0 then - (value + payment * periods)
         else - (value * Rpower (1 + rate) periods
                 + payment * (1 + rate * type)
                   * (Rpower (1 + rate) periods - 1) / rate)).
Proof.
  intros Hr Ht. unfold FV, default. cbn [seq].
  destruct (Req_dec_T rate 0) as [E | E]; [reflexivity |].
  cbn [add]. rewrite pow_Fin_pos by lra.
  destruct Ht as [-> | ->].
  - destruct (Req_dec_T 0 1) as [? | _]; [lra |].
    cbn [add sub mul neg]. rewrite div_Fin by assumption. cbn [add neg].
    apply f_equal. field. assumption.
  - destruct (Req_dec_T 1 1) as [_ | ?]; [| lra].
    cbn [add sub mul neg]. rewrite div_Fin by assumption. cbn [add neg].
    apply f_equal. field. assumption.
Qed.

(** PMT on real arguments, in closed form. *)
Lemma PMT_real (rate periods present future type : R) :
  -1 < rate -> periods <> 0 -> type = 0 \/ type = 1 ->
  PMT rate periods present (Some (Fin future)) (Some (Fin type))
  = Fin (if Req_dec_T rate 0 then - ((present + future) / periods)
         else - ((future + present * Rpower (1 + rate) periods) * rate
                 / ((Rpower (1 + rate) periods - 1) * (1 + rate * type)))).
Proof.
  intros Hr Hn Ht. unfold PMT, default. cbn [seq].
  destruct (Req_dec_T rate 0) as [E | E].
  - cbn [add]. rewrite div_Fin by assumption. reflexivity.
  - assert (Ht1 : Rpower (1 + rate) periods <> 1)
      by (apply Rpower_neq_1; lra).
    pose proof (Rpower_pos (1 + rate) periods) as Htpos.
    cbn [add]. rewrite pow_Fin_pos by lra.
    set (t := Rpower (1 + rate) periods) in *.
    assert (Hd : 1 + - (1 / t) <> 0).
    { intros H. apply Ht1. field_simplify_eq in H; lra. }
    destruct Ht as [-> | ->].
    + destruct (Req_dec_T 0 1) as [? | _]; [lra |].
      cbn [add sub mul neg]. rewrite (div_Fin 1 t) by lra. cbn [add neg].
      rewrite !div_Fin by (assumption || lra). cbn [add neg].
      apply f_equal. field. repeat split; lra.
    + destruct (Req_dec_T 1 1) as [_ | ?]; [| lra].
      cbn [add sub mul neg]. rewrite (div_Fin 1 t) by lra. cbn [add neg].
      rewrite !div_Fin by (assumption || lra). cbn [add].
      rewrite div_Fin by lra. cbn [neg].
      apply f_equal. field. repeat split; lra.
Qed.

End ClosedForms.

(** ** Round trips between the formulas *)

Module RoundTrips.
Import JS Excel JSFacts Amortization Split ClosedForms.

(** PV inverts FV: for a real rate above -1 and type 0 or 1, the present
    value of the future value FV computes from [present] is [present]. *)
Theorem PV_inverts_FV (rate periods payment present type : R) :
  -1 < rate -> type = 0 \/ type = 1 ->
  PV rate periods payment
     (FV rate periods payment present (Some (Fin type))) (Some (Fin type))
  = Fin present.
Proof.
  intros Hr Ht. rewrite FV_real by assumption. rewrite PV_real by lra.
  apply f_equal. pose proof (Rpower_pos (1 + rate) periods) as Htpos.
  destruct (Req_dec_T rate 0) as [E | E]; [lra |].
  field. split; lra.
Qed.

Lemma PV_inverts_FV_witness :
  PV 0.05 12 (Fin (-100))
     (FV 0.05 12 (Fin (-100)) 1000 (Some (Fin 1))) (Some (Fin 1))
  = Fin 1000.
Proof.
  apply (PV_inverts_FV 0.05 12 (-100) 1000 1); [lra | right; reflexivity].
Defined.

(** The payment PMT computes brings [present] to [future]: for a real
    rate above -1, a nonzero number of periods and type 0 or 1, FV of that
    payment is [future]. *)
Theorem PMT_reaches_future (rate periods present future type : R) :
  -1 < rate -> periods <> 0 -> type = 0 \/ type = 1 ->
  FV rate periods
     (PMT rate periods present (Some (Fin future)) (Some (Fin type)))
     present (Some (Fin type))
  = Fin future.
Proof.
  intros Hr Hn Ht. rewrite PMT_real by assumption.
  rewrite FV_real by assumption. apply f_equal.
  destruct (Req_dec_T rate 0) as [E | E]; [field; assumption |].
  assert (Ht1 : Rpower (1 + rate) periods <> 1)
    by (apply Rpower_neq_1; lra).
  field. repeat split; try lra. destruct Ht as [-> | ->]; lra.
Qed.

Lemma PMT_reaches_future_witness :
  FV 0.05 12 (PMT 0.05 12 1000 (Some (Fin 250)) (Some (Fin 1))) 1000
     (Some (Fin 1))
  = Fin 250.
Proof.
  apply (PMT_reaches_future 0.05 12 1000 250 1);
    [lra | lra | right; reflexivity].
Defined.

(** PV of the payment PMT computes is the present value PMT was given,
    under the same conditions. *)
Theorem PMT_matches_present (rate periods present future type : R) :
  -1 < rate -> periods <> 0 -> type = 0 \/ type = 1 ->
  PV rate periods
     (PMT rate periods present (Some (Fin future)) (Some (Fin type)))
     future (Some (Fin type))
  = Fin present.
Proof.
  intros Hr Hn Ht. rewrite PMT_real by assumption.
  rewrite PV_real by lra. apply f_equal.
  pose proof (Rpower_pos (1 + rate) periods) as Htpos.
  destruct (Req_dec_T rate 0) as [E | E]; [field; assumption |].
  assert (Ht1 : Rpower (1 + rate) periods <> 1)
    by (apply Rpower_neq_1; lra).
  field. repeat split; try lra. destruct Ht as [-> | ->]; lra.
Qed.

Lemma PMT_matches_present_witness :
  PV 0.05 12 (PMT 0.05 12 1000 (Some (Fin 250)) (Some (Fin 0))) 250
     (Some (Fin 0))
  = Fin 1000.
Proof.
  apply (PMT_matches_present 0.05 12 1000 250 0);
    [lra | lra | left; reflexivity].
Defined.

Lemma log_Fin_pos (x : R) : 0 < x -> log (Fin x) = Fin (ln x).
Proof.
  intros H. unfold log. rewrite Rzero_neq, Rneg_ge by lra. reflexivity.
Qed.

Lemma ln_neq_0 (x : R) : 0 < x -> x <> 1 -> ln x <> 0.
Proof.
  intros Hx H1 H. apply H1. apply ln_inv; [assumption | lra |].
  now rewrite ln_1.
Qed.

(** NPER inverts PMT: for a real nonzero rate above -1, a nonzero number
    of periods, [present + future <> 0] and type 0 or 1, NPER of the payment
    PMT computes is the number of periods. *)
Theorem NPER_of_PMT (rate periods present future type : R) :
  -1 < rate -> rate <> 0 -> periods <> 0 -> present + future <> 0 ->
  type = 0 \/ type = 1 ->
  NPER rate (PMT rate periods present (Some (Fin future)) (Some (Fin type)))
       present (Some (Fin future)) (Some (Fin type))
  = Fin periods.
Proof.
  intros Hr Hr0 Hn Hpf Ht. rewrite PMT_real by assumption.
  destruct (Req_dec_T rate 0) as [E | _]; [contradiction |].
  assert (Ht1 : Rpower (1 + rate) periods <> 1)
    by (apply Rpower_neq_1; lra).
  pose proof (Rpower_pos (1 + rate) periods) as Htpos.
  assert (Hty : 1 + rate * type <> 0) by (destruct Ht as [-> | ->]; lra).
  unfold NPER, NPER_num, NPER_den, default. cbn [add sub mul neg].
  set (t := Rpower (1 + rate) periods) in *.
  set (pmt := - ((future + present * t) * rate / ((t - 1) * (1 + rate * type)))).
  assert (Hden : present * rate + pmt * (1 + rate * type)
                 = - (rate * (present + future)) / (t - 1)).
  { unfold pmt. field. split; lra. }
  assert (Hnum : pmt * (1 + rate * type) + - (future * rate)
                 = t * (- (rate * (present + future)) / (t - 1))).
  { unfold pmt. field. split; lra. }
  assert (Hd0 : - (rate * (present + future)) / (t - 1) <> 0).
  { intros H. apply (Rmult_eq_compat_r (t - 1)) in H.
    field_simplify in H; [| lra].
    assert (rate * (present + future) = 0) by lra.
    apply Rmult_integral in H0. tauto. }
  rewrite Hden, Hnum.
  set (d := - (rate * (present + future)) / (t - 1)) in *.
  rewrite div_Fin by assumption.
  replace (t * d / d) with t by (field; assumption).
  rewrite !log_Fin_pos by lra.
  rewrite div_Fin by (apply ln_neq_0; lra).
  apply f_equal. unfold t, Rpower. rewrite ln_exp. field.
  apply ln_neq_0; lra.
Qed.

Lemma NPER_of_PMT_witness :
  NPER 0.05 (PMT 0.05 12 1000 (Some (Fin 0)) (Some (Fin 0))) 1000
       (Some (Fin 0)) (Some (Fin 0))
  = Fin 12.
Proof.
  apply (NPER_of_PMT 0.05 12 1000 0 0); try lra; try (left; reflexivity).
Defined.

Lemma NPER_ratio_value (rate payment present future type : R) :
  present * rate + payment * (1 + rate * type) <> 0 ->
  div (NPER_num rate payment future type)
      (NPER_den rate payment present type)
  = Fin ((payment * (1 + rate * type) - future * rate)
         / (present * rate + payment * (1 + rate * type))).
Proof.
  intros Hd. unfold NPER_num, NPER_den. cbn [add sub mul neg].
  rewrite div_Fin by assumption. apply f_equal. reflexivity.
Qed.

(** PMT inverts NPER: when the ratio [num / den] of NPER is positive (so
    that its logarithm exists) and [present + future <> 0], NPER returns a
    finite number of periods, and the payment that amortizes over that
    many periods is the payment NPER was given. *)
Theorem PMT_of_NPER (rate payment present future type : R) :
  -1 < rate -> rate <> 0 -> type = 0 \/ type = 1 ->
  present * rate + payment * (1 + rate * type) <> 0 ->
  present + future <> 0 ->
  0 < (payment * (1 + rate * type) - future * rate)
      / (present * rate + payment * (1 + rate * type)) ->
  exists n : R,
    NPER rate payment present (Some (Fin future)) (Some (Fin type)) = Fin n
    /\ PMT rate n present (Some (Fin future)) (Some (Fin type))
       = Fin payment.
Proof.
  intros Hr Hr0 Ht Hden Hpf Hq.
  set (q := (payment * (1 + rate * type) - future * rate)
            / (present * rate + payment * (1 + rate * type))) in *.
  assert (Hln : ln (1 + rate) <> 0).
  { intros H. apply Hr0. assert (1 + rate = 1); [| lra].
    apply ln_inv; [lra | lra |]. now rewrite ln_1. }
  assert (Hty : 1 + rate * type <> 0) by (destruct Ht as [-> | ->]; lra).
  assert (Hq1 : q <> 1).
  { unfold q. intros H. apply Hpf.
    apply (Rmult_eq_compat_r
             (present * rate + payment * (1 + rate * type))) in H.
    field_simplify in H; [| assumption].
    assert (rate * (present + future) = 0) by lra.
    apply Rmult_integral in H0. tauto. }
  exists (ln q / ln (1 + rate)). split.
  - unfold NPER, default. rewrite NPER_ratio_value by assumption. fold q.
    cbn [add]. unfold log. rewrite !Rzero_neq, !Rneg_ge by lra.
    rewrite div_Fin by assumption. reflexivity.
  - assert (Hn : ln q / ln (1 + rate) <> 0).
    { intros H. apply Hq1. apply ln_inv; [assumption | lra |].
      rewrite ln_1. apply (Rmult_eq_compat_r (ln (1 + rate))) in H.
      field_simplify in H; [lra | assumption]. }
    rewrite PMT_real by assumption.
    destruct (Req_dec_T rate 0) as [E | _]; [contradiction |].
    assert (Hpow : Rpower (1 + rate) (ln q / ln (1 + rate)) = q).
    { unfold Rpower.
      replace (ln q / ln (1 + rate) * ln (1 + rate)) with (ln q)
        by (field; assumption).
      now apply exp_ln. }
    rewrite Hpow. apply f_equal. unfold q. field.
    repeat split; try assumption.
    + intros H. apply Hq1. unfold q. 
      apply (Rmult_eq_reg_r (present * rate + payment * (1 + rate * type)));
        [| assumption]. field_simplify; [| assumption]. lra.
Qed.

Lemma PMT_of_NPER_witness :
  exists n : R,
    NPER 0.05 (Fin (-100)) 1000 (Some (Fin 0)) (Some (Fin 0)) = Fin n
    /\ PMT 0.05 n 1000 (Some (Fin 0)) (Some (Fin 0)) = Fin (-100).
Proof.
  apply (PMT_of_NPER 0.05 (-100) 1000 0 0); try lra; try (left; reflexivity).
Defined.

End RoundTrips.

(** ** Signs and degenerate arguments *)

Module Edge.
Import JS Excel JSFacts Amortization Split ClosedForms Conversion.

Lemma Rpower_lt_1 (b e : R) : 0 < b < 1 -> 0 < e -> Rpower b e < 1.
Proof.
  intros Hb He. unfold Rpower. rewrite <- exp_0. apply exp_increasing.
  assert (ln b < 0) by (rewrite <- ln_1; apply ln_increasing; lra).
  nra.
Qed.

(** The sign convention of PMT: for a real rate above -1, a positive
    number of periods, a positive present value and a future value that is
    not negative, the payment is negative (money paid out). *)
Theorem PMT_negative (rate periods present future type : R) :
  -1 < rate -> 0 < periods -> 0 < present -> 0 <= future ->
  type = 0 \/ type = 1 ->
  lt (PMT rate periods present (Some (Fin future)) (Some (Fin type))) 0
  = true.
Proof.
  intros Hr Hn Hpv Hfv Ht. rewrite PMT_real by (assumption || lra).
  apply lt_Fin. destruct (Req_dec_T rate 0) as [E | E].
  - assert (0 < (present + future) / periods)
      by (apply Rdiv_lt_0_compat; lra). lra.
  - pose proof (Rpower_pos (1 + rate) periods) as Htpos.
    set (t := Rpower (1 + rate) periods) in *.
    assert (Hty : 0 < 1 + rate * type) by (destruct Ht as [-> | ->]; lra).
    assert (Hq : 0 < rate / (t - 1)).
    { destruct (Rlt_dec 0 rate) as [Hp | Hp].
      - assert (1 < t) by (apply Rpower_gt_1; lra).
        apply Rdiv_lt_0_compat; lra.
      - assert (t < 1) by (apply Rpower_lt_1; lra).
        replace (rate / (t - 1)) with ((- rate) / (1 - t)) by (field; lra).
        apply Rdiv_lt_0_compat; lra. }
    assert (Ht1 : t - 1 <> 0).
    { intros H. rewrite H in Hq. unfold Rdiv in Hq. rewrite Rinv_0 in Hq. lra. }
    replace ((future + present * t) * rate / ((t - 1) * (1 + rate * type)))
      with ((future + present * t) * (rate / (t - 1)) / (1 + rate * type))
      by (field; split; lra).
    assert (0 < (future + present * t) * (rate / (t - 1)) / (1 + rate * type)).
    { apply Rdiv_lt_0_compat; [| assumption].
      apply Rmult_lt_0_compat; [nra | assumption]. }
    lra.
Qed.

Lemma PMT_negative_witness :
  lt (PMT 0.05 12 1000 (Some (Fin 0)) (Some (Fin 0))) 0 = true.
Proof.
  apply (PMT_negative 0.05 12 1000 0 0); try lra; try (left; reflexivity).
Defined.

(** With no periods nothing is compounded or paid: for every real rate
    (a rate of 0 or of -1 included), FV returns [- present] and PV returns
    [- future]. *)
Theorem zero_periods (rate payment present future type : R) :
  FV rate 0 payment present (Some (Fin type)) = Fin (- present)
  /\ PV rate 0 payment future (Some (Fin type)) = Fin (- future).
Proof.
  unfold FV, PV, default. cbn [seq add].
  assert (Hpow : pow (Fin (1 + rate)) (Fin 0) = Fin 1).
  { unfold pow. now rewrite Rzero_0. }
  rewrite Hpow.
  destruct (Req_dec_T rate 0) as [E | E].
  - cbn [add sub mul neg]. split; apply f_equal; lra.
  - destruct (Req_dec_T type 1); cbn [add sub mul neg];
      rewrite !div_Fin by (assumption || lra); cbn [add sub mul neg];
      rewrite ?div_Fin by lra; split; apply f_equal; field; assumption.
Qed.

Lemma div_zero_not_finite (a : R) : is_finite (div (Fin a) (Fin 0)) = false.
Proof. unfold div. rewrite Rzero_0. destruct (Rzero a); reflexivity. Qed.

Lemma add_not_finite (x y : number) :
  is_finite x = false -> is_finite y = false -> is_finite (add x y) = false.
Proof.
  destruct x as [| s | a], y as [| t | b]; try discriminate; intros _ _;
    try reflexivity. cbn. destruct (Bool.eqb s t); reflexivity.
Qed.

Lemma neg_finite (x : number) : is_finite (neg x) = is_finite x.
Proof. destruct x; reflexivity. Qed.

(** PMT over no periods divides by zero in every branch: for all real
    arguments its result is NaN or an infinity, never a finite number. *)
Theorem PMT_zero_periods (rate present future type : R) :
  is_finite (PMT rate 0 present (Some (Fin future)) (Some (Fin type)))
  = false.
Proof.
  unfold PMT, default. cbn [seq add]. rewrite neg_finite.
  assert (Hpow : pow (Fin (1 + rate)) (Fin 0) = Fin 1).
  { unfold pow. now rewrite Rzero_0. }
  rewrite Hpow.
  destruct (Req_dec_T rate 0) as [E | E].
  - apply div_zero_not_finite.
  - cbn [sub add mul neg]. rewrite (div_Fin 1 1) by lra. cbn [add neg].
    replace (1 + - (1)) with 0 by lra. replace (1 + - (1 / 1)) with 0 by field.
    pose proof (add_not_finite _ _ (div_zero_not_finite (future * rate))
                  (div_zero_not_finite (present * rate))) as H.
    destruct (Req_dec_T type 1); [| exact H].
    apply Periods.div_not_finite. exact H.
Qed.

(** At a zero rate no interest accrues: IPMT is 0 for every period, and
    PPMT is the whole payment [-(present + future) / periods]. *)
Theorem zero_rate_split (period periods present future type : R) :
  periods <> 0 ->
  IPMT 0 period periods present (Some (Fin future)) (Some (Fin type)) = Fin 0
  /\ PPMT 0 period periods present (Some (Fin future)) (Some (Fin type))
     = Fin (- ((present + future) / periods))
  /\ PMT 0 periods present (Some (Fin future)) (Some (Fin type))
     = Fin (- ((present + future) / periods)).
Proof.
  intros Hn.
  assert (Hp : PMT 0 periods present (Some (Fin future)) (Some (Fin type))
               = Fin (- ((present + future) / periods))).
  { unfold PMT, default. rewrite (proj2 (seq_Fin 0 0) eq_refl).
    cbn [add]. rewrite div_Fin by assumption. reflexivity. }
  assert (Hi : IPMT 0 period periods present (Some (Fin future))
                 (Some (Fin type)) = Fin 0).
  { unfold IPMT. cbn [default]. rewrite Hp.
    assert (Hfv : forall k t : R,
               exists v : R,
                 FV 0 k (Fin (- ((present + future) / periods))) present
                    (Some (Fin t)) = Fin v).
    { intros k t. apply is_finite_Fin. apply FV_finite. lra. }
    destruct (seq period 1), (seq type 1); cbn [sub add neg].
    - cbn [mul]. apply f_equal. lra.
    - cbn [mul]. apply f_equal. lra.
    - destruct (Hfv (period + - (2)) 1) as [v ->]. cbn [sub add neg mul].
      apply f_equal. lra.
    - destruct (Hfv (period + - (1)) 0) as [v ->]. cbn [mul].
      apply f_equal. lra. }
  split; [exact Hi |]. split; [| exact Hp].
  unfold PPMT. rewrite Hp, Hi. cbn [sub add neg]. apply f_equal. lra.
Qed.

Lemma zero_rate_split_witness :
  IPMT 0 3 12 1200 (Some (Fin 0)) (Some (Fin 0)) = Fin 0.
Proof.
  apply (zero_rate_split 3 12 1200 0 0). lra.
Defined.

End Edge.

(** ** The amortization schedule *)

Module Schedule.
Import JS Excel JSFacts Amortization Split ClosedForms Aux.

(** IPMT of an ordinary annuity on real arguments: the rate times the
    balance that FV gives after [period - 1] payments; the branch for
    period 1 gives the same value. *)
Lemma IPMT_ordinary (rate period periods present future pmt : R) :
  -1 < rate ->
  PMT rate periods present (Some (Fin future)) (Some (Fin 0)) = Fin pmt ->
  IPMT rate period periods present (Some (Fin future)) (Some (Fin 0))
  = mul (FV rate (period - 1) pmt present (Some (Fin 0))) rate.
Proof.
  intros Hr Hp. unfold IPMT. cbn [default]. rewrite Hp.
  rewrite (seq_Fin_neq 0 1) by lra. cbn [seq].
  destruct (Req_dec_T period 1) as [-> | E]; [| reflexivity].
  cbn [sub add neg]. rewrite FV_real by (lra || now left).
  cbn [neg mul]. apply f_equal.
  replace (1 + - (1)) with 0 by lra. rewrite Rpower_O by lra.
  destruct (Req_dec_T rate 0) as [E | E]; [lra | field; assumption].
Qed.

Lemma PMT_is_Fin (rate periods present future type : R) :
  -1 < rate -> periods <> 0 ->
  exists pmt : R,
    PMT rate periods present (Some (Fin future)) (Some (Fin type)) = Fin pmt.
Proof.
  intros Hr Hn. apply is_finite_Fin. now apply PMT_finite.
Qed.

(** PPMT of an ordinary annuity, in closed form. *)
Lemma PPMT_ordinary (rate period periods present future pmt : R) :
  -1 < rate ->
  PMT rate periods present (Some (Fin future)) (Some (Fin 0)) = Fin pmt ->
  PPMT rate period periods present (Some (Fin future)) (Some (Fin 0))
  = Fin ((pmt + present * rate) * Rpower (1 + rate) (period - 1)).
Proof.
  intros Hr Hp. unfold PPMT.
  rewrite (IPMT_ordinary rate period periods present future pmt Hr Hp).
  cbn [sub add neg]. rewrite Hp, FV_real by (lra || now left).
  cbn [sub add mul neg]. apply f_equal.
  replace (period + - (1)) with (period - 1) by lra.
  destruct (Req_dec_T rate 0) as [E | E].
  - rewrite E. replace (1 + 0) with 1 by lra. rewrite Rpower_1_l. lra.
  - field. assumption.
Qed.

(** In an ordinary annuity the principal portion grows by the factor
    [1 + rate] from each period to the next; this holds across the
    separate branch IPMT has for period 1. *)
Theorem PPMT_grows (rate period periods present future : R) :
  -1 < rate -> periods <> 0 ->
  exists v : R,
    PPMT rate period periods present (Some (Fin future)) (Some (Fin 0))
    = Fin v
    /\ PPMT rate (Fin (period + 1)) periods present (Some (Fin future))
            (Some (Fin 0))
       = Fin ((1 + rate) * v).
Proof.
  intros Hr Hn.
  destruct (PMT_is_Fin rate periods present future 0 Hr Hn) as [pmt Hp].
  rewrite (PPMT_ordinary rate (period + 1) periods present future pmt Hr Hp).
  rewrite (PPMT_ordinary rate period periods present future pmt Hr Hp).
  eexists. split; [reflexivity |]. apply f_equal.
  replace (period + 1 - 1) with ((period - 1) + 1) by lra.
  rewrite Rpower_plus, Rpower_1 by lra. ring.
Qed.

Lemma PPMT_grows_witness :
  exists v : R,
    PPMT 0.05 1 12 1000 (Some (Fin 0)) (Some (Fin 0)) = Fin v
    /\ PPMT 0.05 (Fin (1 + 1)) 12 1000 (Some (Fin 0)) (Some (Fin 0))
       = Fin ((1 + 0.05) * v).
Proof.
  apply (PPMT_grows 0.05 1 12 1000 0); lra.
Defined.

(** The principal portions of an ordinary annuity add up geometrically. *)
Lemma total_PPMT_ordinary (rate periods present future pmt : R) (k : nat) :
  -1 < rate ->
  PMT rate periods present (Some (Fin future)) (Some (Fin 0)) = Fin pmt ->
  total (fun p => PPMT rate (INR p) periods present (Some (Fin future))
                    (Some (Fin 0))) k
  = Fin ((pmt + present * rate)
         * (if Req_dec_T rate 0 then INR k
            else (Rpower (1 + rate) (INR k) - 1) / rate)).
Proof.
  intros Hr Hp. induction k as [| k IH].
  - cbn [total INR]. apply f_equal. rewrite Rpower_O by lra.
    destruct (Req_dec_T rate 0); [lra | field; assumption].
  - cbn [total]. rewrite IH.
    rewrite (PPMT_ordinary _ _ _ _ _ pmt Hr Hp). cbn [add]. apply f_equal.
    rewrite S_INR. replace (INR k + 1 - 1) with (INR k) by lra.
    rewrite Rpower_plus, Rpower_1 by lra.
    destruct (Req_dec_T rate 0) as [E | E].
    + rewrite E. replace (1 + 0) with 1 by lra. rewrite Rpower_1_l. lra.
    + field. assumption.
Qed.

(** The principal paid in the first [k] periods of an ordinary annuity
    is minus the present value less the balance: the sum of PPMT over the
    periods 1 to [k] is [-(present + FV(rate, k, PMT(...), present))]. *)
Theorem cumulative_principal (rate periods present future : R) (k : nat) :
  -1 < rate -> periods <> 0 ->
  exists balance : R,
    FV rate (INR k)
       (PMT rate periods present (Some (Fin future)) (Some (Fin 0)))
       present (Some (Fin 0))
    = Fin balance
    /\ total (fun p => PPMT rate (INR p) periods present (Some (Fin future))
                         (Some (Fin 0))) k
       = Fin (- (present + balance)).
Proof.
  intros Hr Hn.
  destruct (PMT_is_Fin rate periods present future 0 Hr Hn) as [pmt Hp].
  rewrite Hp. rewrite (total_PPMT_ordinary _ _ _ _ pmt k Hr Hp).
  rewrite FV_real by (lra || now left).
  eexists. split; [reflexivity |]. apply f_equal.
  destruct (Req_dec_T rate 0) as [E | E]; [rewrite E; ring | field; assumption].
Qed.

Lemma cumulative_principal_witness :
  exists balance : R,
    FV 0.05 (INR 3) (PMT 0.05 12 1000 (Some (Fin 0)) (Some (Fin 0))) 1000
       (Some (Fin 0))
    = Fin balance
    /\ total (fun p => PPMT 0.05 (INR p) 12 1000 (Some (Fin 0))
                         (Some (Fin 0))) 3
       = Fin (- (1000 + balance)).
Proof.
  apply (cumulative_principal 0.05 12 1000 0 3); lra.
Defined.

(** Over the whole life of an ordinary annuity of [n >= 1] periods the
    principal portions add up to [-(present + future)]. *)
Theorem total_principal (rate present future : R) (n : nat) :
  -1 < rate -> (0 < n)%nat ->
  total (fun p => PPMT rate (INR p) (INR n) present (Some (Fin future))
                    (Some (Fin 0))) n
  = Fin (- (present + future)).
Proof.
  intros Hr Hn.
  assert (Hn' : INR n <> 0) by (apply not_0_INR; lia).
  pose proof (PMT_real rate (INR n) present future 0 Hr Hn' (or_introl eq_refl))
    as Hp.
  rewrite (total_PPMT_ordinary _ _ _ _ _ n Hr Hp). apply f_equal.
  destruct (Req_dec_T rate 0) as [E | E]; [rewrite E; field; assumption |].
  assert (Ht1 : Rpower (1 + rate) (INR n) <> 1)
    by (apply Rpower_neq_1; lra).
  field. repeat split; lra.
Qed.

Lemma total_principal_witness :
  total (fun p => PPMT 0.05 (INR p) (INR 12) 1000 (Some (Fin 0))
                    (Some (Fin 0))) 12
  = Fin (- (1000 + 0)).
Proof.
  apply (total_principal 0.05 1000 0 12); [lra | lia].
Defined.

(** *** Annuity due *)

Lemma PPMT_due_first (rate periods present future pmt : R) :
  PMT rate periods present (Some (Fin future)) (Some (Fin 1)) = Fin pmt ->
  PPMT rate 1 periods present (Some (Fin future)) (Some (Fin 1)) = Fin pmt.
Proof.
  intros Hp. unfold PPMT, IPMT. cbn [default]. rewrite Hp.
  rewrite !(proj2 (seq_Fin 1 1) eq_refl). cbn [mul sub add neg].
  apply f_equal. lra.
Qed.

Lemma PPMT_due_later (rate period periods present future pmt : R) :
  -1 < rate -> period <> 1 ->
  PMT rate periods present (Some (Fin future)) (Some (Fin 1)) = Fin pmt ->
  PPMT rate period periods present (Some (Fin future)) (Some (Fin 1))
  = Fin ((present * rate + pmt * (1 + rate))
         * Rpower (1 + rate) (period - 2)).
Proof.
  intros Hr Hper Hp. unfold PPMT, IPMT. cbn [default]. rewrite Hp.
  rewrite (seq_Fin_neq period 1 Hper), (proj2 (seq_Fin 1 1) eq_refl).
  cbn [sub add neg]. rewrite FV_real by (lra || now right).
  cbn [sub add mul neg]. apply f_equal.
  replace (period + - (2)) with (period - 2) by lra.
  destruct (Req_dec_T rate 0) as [E | E].
  - rewrite E. replace (1 + 0) with 1 by lra. rewrite Rpower_1_l. lra.
  - field. assumption.
Qed.

Lemma total_PPMT_due (rate periods present future pmt : R) (k : nat) :
  -1 < rate ->
  PMT rate periods present (Some (Fin future)) (Some (Fin 1)) = Fin pmt ->
  total (fun p => PPMT rate (INR p) periods present (Some (Fin future))
                    (Some (Fin 1))) (S k)
  = Fin (pmt + (present * rate + pmt * (1 + rate))
               * (if Req_dec_T rate 0 then INR k
                  else (Rpower (1 + rate) (INR k) - 1) / rate)).
Proof.
  intros Hr Hp. induction k as [| k IH].
  - cbn [total]. change (INR 1) with 1.
    rewrite (PPMT_due_first _ _ _ _ pmt Hp). cbn [add INR]. apply f_equal.
    rewrite Rpower_O by lra.
    destruct (Req_dec_T rate 0); [lra | field; assumption].
  - change (total ?f (S (S k))) with (add (total f (S k)) (f (S (S k)))).
    cbv beta. rewrite IH.
    pose proof (pos_INR k) as Hk.
    rewrite (PPMT_due_later _ _ _ _ _ pmt Hr) by (rewrite ?S_INR; lra || assumption).
    cbn [add]. apply f_equal. rewrite !S_INR.
    replace (INR k + 1 + 1 - 2) with (INR k) by lra.
    rewrite Rpower_plus, Rpower_1 by lra.
    destruct (Req_dec_T rate 0) as [E | E].
    + rewrite E. replace (1 + 0) with 1 by lra. rewrite Rpower_1_l. lra.
    + field. assumption.
Qed.

(** With payments at the start of each period (type 1) the principal
    portions of the [n >= 1] periods add up to
    [-(present + future / (1 + rate))]: the interest of the last period
    accrues after the last payment and belongs to no IPMT. *)
Theorem total_principal_due (rate present future : R) (n : nat) :
  -1 < rate -> (0 < n)%nat ->
  total (fun p => PPMT rate (INR p) (INR n) present (Some (Fin future))
                    (Some (Fin 1))) n
  = Fin (- (present + future / (1 + rate))).
Proof.
  intros Hr Hn. destruct n as [| k]; [lia |].
  assert (Hn' : INR (S k) <> 0) by (apply not_0_INR; lia).
  pose proof (PMT_real rate (INR (S k)) present future 1 Hr Hn'
                (or_intror eq_refl)) as Hp.
  rewrite (total_PPMT_due _ _ _ _ _ k Hr Hp). apply f_equal.
  destruct (Req_dec_T rate 0) as [E | E].
  - rewrite E, S_INR. pose proof (pos_INR k). field. lra.
  - assert (Ht1 : Rpower (1 + rate) (INR (S k)) <> 1)
      by (apply Rpower_neq_1; lra).
    revert Ht1. rewrite S_INR, Rpower_plus, Rpower_1 by lra. intros Ht1.
    field. repeat split; lra.
Qed.

Lemma total_principal_due_witness :
  total (fun p => PPMT 0.05 (INR p) (INR 12) 1000 (Some (Fin 210))
                    (Some (Fin 1))) 12
  = Fin (- (1000 + 210 / (1 + 0.05))).
Proof.
  apply (total_principal_due 0.05 1000 210 12); [lra | lia].
Defined.

End Schedule.

(** ** Compounding *)

Module Compounding.
Import JS Excel JSFacts Amortization Split Conversion.

(** What both functions compute once the guards have passed: [parseInt]
    gives an integer [m >= 1]. *)
Lemma EFFECT_value (rate periods : R) :
  0 < rate -> 1 <= periods ->
  exists m : Z,
    (1 <= m)%Z
    /\ EFFECT rate periods
       = Num (Fin (Rpower (1 + rate / IZR m) (IZR m) - 1)).
Proof.
  intros Hr Hp. destruct (parseInt10_ge_1 periods Hp) as (m & Hm & Hparse).
  exists m. split; [assumption |].
  assert (HM : 1 <= IZR m) by now apply IZR_le.
  unfold EFFECT. destruct (guards_pass rate periods Hr Hp) as [-> ->].
  rewrite Hparse. rewrite div_Fin by lra. cbn [add].
  assert (0 < rate / IZR m) by (apply Rdiv_lt_0_compat; lra).
  rewrite pow_Fin_pos by lra. reflexivity.
Qed.

Lemma NOMINAL_value (rate periods : R) :
  0 < rate -> 1 <= periods ->
  exists m : Z,
    (1 <= m)%Z
    /\ NOMINAL rate periods
       = Num (Fin ((Rpower (rate + 1) (1 / IZR m) - 1) * IZR m)).
Proof.
  intros Hr Hp. destruct (parseInt10_ge_1 periods Hp) as (m & Hm & Hparse).
  exists m. split; [assumption |].
  assert (HM : 1 <= IZR m) by now apply IZR_le.
  unfold NOMINAL. destruct (guards_pass rate periods Hr Hp) as [-> ->].
  rewrite Hparse. rewrite div_Fin by lra. cbn [add].
  rewrite pow_Fin_pos by lra. reflexivity.
Qed.

(** Bernoulli's inequality at an integer exponent [m >= 1]. *)
Lemma Rpower_bernoulli (x : R) (m : Z) :
  0 < x -> (1 <= m)%Z -> 1 + IZR m * x <= Rpower (1 + x) (IZR m).
Proof.
  intros Hx Hm. rewrite <- (Z2Nat.id m) by lia. rewrite <- INR_IZR_INZ.
  rewrite Rpower_pow by lra. now apply poly.
Qed.

(** Compounding never lowers the rate: for a real rate above 0 and a
    period count of at least 1, EFFECT returns a number that is at least
    the nominal rate. *)
Theorem EFFECT_at_least_nominal (rate periods : R) :
  0 < rate -> 1 <= periods ->
  exists v : R, EFFECT rate periods = Num (Fin v) /\ rate <= v.
Proof.
  intros Hr Hp. destruct (EFFECT_value rate periods Hr Hp) as (m & Hm & ->).
  eexists. split; [reflexivity |].
  assert (HM : 1 <= IZR m) by now apply IZR_le.
  assert (Hx : 0 < rate / IZR m) by (apply Rdiv_lt_0_compat; lra).
  pose proof (Rpower_bernoulli (rate / IZR m) m Hx Hm) as Hb.
  replace (IZR m * (rate / IZR m)) with rate in Hb by (field; lra).
  lra.
Qed.

Lemma EFFECT_at_least_nominal_witness :
  exists v : R, EFFECT 0.05 12 = Num (Fin v) /\ 0.05 <= v.
Proof.
  apply (EFFECT_at_least_nominal 0.05 12); lra.
Defined.

(** For a real effective rate above 0 and a period count of at least 1,
    NOMINAL returns a positive number that is at most the effective
    rate. *)
Theorem NOMINAL_at_most_effective (rate periods : R) :
  0 < rate -> 1 <= periods ->
  exists v : R, NOMINAL rate periods = Num (Fin v) /\ 0 < v <= rate.
Proof.
  intros Hr Hp. destruct (NOMINAL_value rate periods Hr Hp) as (m & Hm & ->).
  eexists. split; [reflexivity |].
  assert (HM : 1 <= IZR m) by now apply IZR_le.
  assert (Hroot : 1 < Rpower (rate + 1) (1 / IZR m)).
  { apply Rpower_gt_1; [lra |]. apply Rdiv_lt_0_compat; lra. }
  set (x := Rpower (rate + 1) (1 / IZR m) - 1).
  assert (Hx : 0 < x) by (unfold x; lra).
  pose proof (Rpower_bernoulli x m Hx Hm) as Hb.
  replace (1 + x) with (Rpower (rate + 1) (1 / IZR m)) in Hb
    by (unfold x; lra).
  rewrite Rpower_mult in Hb.
  replace (1 / IZR m * IZR m) with 1 in Hb by (field; lra).
  rewrite Rpower_1 in Hb by lra.
  split; [apply Rmult_lt_0_compat; lra | lra].
Qed.

Lemma NOMINAL_at_most_effective_witness :
  exists v : R, NOMINAL 0.05 12 = Num (Fin v) /\ 0 < v <= 0.05.
Proof.
  apply (NOMINAL_at_most_effective 0.05 12); lra.
Defined.

(** NOMINAL inverts EFFECT: for a real rate above 0 and every real
    period count of at least 1 (an integer or not), EFFECT returns a number
    and NOMINAL of that number and the same count is the rate. *)
Theorem NOMINAL_EFFECT_roundtrip (rate periods : R) :
  0 < rate -> 1 <= periods ->
  exists v : R,
    EFFECT rate periods = Num (Fin v) /\ NOMINAL v periods = Num (Fin rate).
Proof.
  intros Hr Hp. destruct (parseInt10_ge_1 periods Hp) as (m & Hm & Hparse).
  assert (HM : 1 <= IZR m) by now apply IZR_le.
  set (M := IZR m) in *.
  assert (Hx : 0 < rate / M) by (apply Rdiv_lt_0_compat; lra).
  assert (Hgrow : 1 < Rpower (1 + rate / M) M)
    by (apply Rpower_gt_1; lra).
  exists (Rpower (1 + rate / M) M + - (1)). split.
  - unfold EFFECT. destruct (guards_pass rate periods Hr Hp) as [-> ->].
    rewrite Hparse. rewrite div_Fin by lra. cbn [add].
    rewrite pow_Fin_pos by lra. reflexivity.
  - unfold NOMINAL.
    assert (Hv : 0 < Rpower (1 + rate / M) M + - (1)) by lra.
    destruct (guards_pass _ periods Hv Hp) as [-> ->].
    rewrite Hparse. rewrite div_Fin by lra. cbn [add].
    replace (Rpower (1 + rate / M) M + - (1) + 1)
      with (Rpower (1 + rate / M) M) by lra.
    rewrite pow_Fin_pos by lra. rewrite Rpower_mult.
    replace (M * (1 / M)) with 1 by (field; lra).
    rewrite Rpower_1 by lra. cbn [sub add neg mul]. do 2 apply f_equal.
    field. lra.
Qed.

Lemma NOMINAL_EFFECT_roundtrip_witness :
  exists v : R,
    EFFECT 0.05 12.5 = Num (Fin v) /\ NOMINAL v 12.5 = Num (Fin 0.05).
Proof.
  apply (NOMINAL_EFFECT_roundtrip 0.05 12.5); lra.
Defined.

(** Between 1 and 1e21 [parseInt] reads the integer part, so a count of
    periods and its integer part give the same result. *)
Lemma parseInt10_floor (x : R) :
  1 <= x < 1e21 -> parseInt10 (Fin x) = Fin (IZR (Int_part x)).
Proof.
  intros Hx. unfold parseInt10.
  rewrite Rzero_neq, (Rabs_pos_eq x) by lra.
  destruct (Rle_dec 1e-6 x) as [_ | N]; [| lra].
  destruct (Rlt_dec x 1e21) as [_ | N]; [| lra].
  unfold Rtrunc. destruct (Rlt_dec x 0); [lra | reflexivity].
Qed.

(** A period count between 1 and 1e21 is cut to its integer part:
    EFFECT and NOMINAL give the same result for the count and for its
    integer part, whatever the rate. *)
Theorem periods_truncated (rate : number) (periods : R) :
  1 <= periods < 1e21 ->
  EFFECT rate periods = EFFECT rate (IZR (Int_part periods))
  /\ NOMINAL rate periods = NOMINAL rate (IZR (Int_part periods)).
Proof.
  intros Hp.
  pose proof (Int_part_pos periods (proj1 Hp)) as Hfl.
  destruct (base_Int_part periods) as [Hle _].
  assert (H1 : 1 <= IZR (Int_part periods)) by now apply IZR_le.
  assert (Hlt : forall x : R, 1 <= x -> lt (Fin x) 1 = false).
  { intros x Hx. cbn [lt]. destruct (Rlt_dec x 1); [lra | reflexivity]. }
  unfold EFFECT, NOMINAL.
  rewrite (parseInt10_floor periods Hp).
  rewrite (parseInt10_floor (IZR (Int_part periods))) by lra.
  rewrite Int_part_IZR.
  rewrite (Hlt periods (proj1 Hp)), (Hlt _ H1).
  split; reflexivity.
Qed.

Lemma periods_truncated_witness :
  EFFECT 0.05 12.9 = EFFECT 0.05 (IZR (Int_part 12.9))
  /\ NOMINAL 0.05 12.9 = NOMINAL 0.05 (IZR (Int_part 12.9)).
Proof.
  apply (periods_truncated 0.05 12.9). lra.
Defined.

(** Which error string: EFFECT and NOMINAL return ['#VALUE!'] exactly when
    an argument is NaN, whatever the other argument is, and ['#NUM!']
    exactly when no argument is NaN and the rate is at most 0 or the
    period count is below 1. *)
Theorem error_strings (rate periods : number) :
  (EFFECT rate periods = Str "#VALUE!" <-> rate = NaN \/ periods = NaN)
  /\ (NOMINAL rate periods = Str "#VALUE!" <-> rate = NaN \/ periods = NaN)
  /\ (EFFECT rate periods = Str "#NUM!"
      <-> rate <> NaN /\ periods <> NaN
          /\ (le rate 0 = true \/ lt periods 1 = true))
  /\ (NOMINAL rate periods = Str "#NUM!"
      <-> rate <> NaN /\ periods <> NaN
          /\ (le rate 0 = true \/ lt periods 1 = true)).
Proof.
  unfold EFFECT, NOMINAL.
  assert (Hnan : isNaN rate || isNaN periods = true
                 <-> rate = NaN \/ periods = NaN).
  { now rewrite orb_true_iff, !isNaN_spec. }
  assert (Hnum : le rate 0 || lt periods 1 = true
                 <-> le rate 0 = true \/ lt periods 1 = true).
  { apply orb_true_iff. }
  destruct (isNaN rate || isNaN periods).
  - assert (Hn : rate = NaN \/ periods = NaN) by now apply Hnan.
    repeat split; try (intros _; assumption); try reflexivity;
      try discriminate; intros (H1 & H2 & _); tauto.
  - assert (Hn : ~ (rate = NaN \/ periods = NaN)).
    { intros H. apply Hnan in H. discriminate. }
    destruct (le rate 0 || lt periods 1).
    + assert (Hm : le rate 0 = true \/ lt periods 1 = true) by now apply Hnum.
      repeat split; try discriminate; try tauto.
    + assert (Hm : ~ (le rate 0 = true \/ lt periods 1 = true)).
      { intros H. apply Hnum in H. discriminate. }
      repeat split; try discriminate; try tauto.
Qed.

End Compounding.

(** ** Reversing the direction of the cash flows *)

Module Signs.
Import JS Excel JSFacts.

Lemma Rzero_opp (a : R) : Rzero (- a) = Rzero a.
Proof.
  unfold Rzero. destruct (Req_dec_T (- a) 0), (Req_dec_T a 0);
    try reflexivity; lra.
Qed.

Lemma Rneg_opp (a : R) : a <> 0 -> Rneg (- a) = negb (Rneg a).
Proof.
  intros H. unfold Rneg. destruct (Rlt_dec (- a) 0), (Rlt_dec a 0);
    try reflexivity; lra.
Qed.

Lemma neg_neg (x : number) : neg (neg x) = x.
Proof.
  destruct x as [| s | a]; cbn; [reflexivity | now rewrite negb_involutive |].
  apply f_equal. lra.
Qed.

Lemma neg_add (x y : number) : neg (add x y) = add (neg x) (neg y).
Proof.
  destruct x as [| s | a], y as [| t | b]; cbn; try reflexivity.
  - destruct s, t; reflexivity.
  - apply f_equal. lra.
Qed.

Lemma neg_sub (x y : number) : neg (sub x y) = sub (neg x) (neg y).
Proof. unfold sub. apply neg_add. Qed.

Lemma mul_neg_l (x y : number) : mul (neg x) y = neg (mul x y).
Proof.
  destruct x as [| s | a], y as [| t | b]; cbn; try reflexivity.
  - destruct s, t; reflexivity.
  - destruct (Rzero b); [reflexivity |]. cbn. destruct s, (Rneg b); reflexivity.
  - rewrite Rzero_opp. destruct (Rzero a) eqn:Ha; [reflexivity |].
    rewrite Rneg_opp by (intros H; now rewrite H, Rzero_0 in Ha).
    cbn. destruct (Rneg a), t; reflexivity.
  - apply f_equal. lra.
Qed.

Lemma mul_neg_r (x y : number) : mul x (neg y) = neg (mul x y).
Proof.
  destruct x as [| s | a], y as [| t | b]; cbn; try reflexivity.
  - destruct s, t; reflexivity.
  - rewrite Rzero_opp. destruct (Rzero b) eqn:Hb; [reflexivity |].
    rewrite Rneg_opp by (intros H; now rewrite H, Rzero_0 in Hb).
    cbn. destruct s, (Rneg b); reflexivity.
  - destruct (Rzero a); [reflexivity |]. cbn. destruct (Rneg a), t; reflexivity.
  - apply f_equal. lra.
Qed.

Lemma div_neg_l (x y : number) : div (neg x) y = neg (div x y).
Proof.
  destruct x as [| s | a], y as [| t | b]; cbn; try reflexivity.
  - destruct s, (Rneg b); reflexivity.
  - unfold neg. apply (f_equal Fin). lra.
  - rewrite Rzero_opp. destruct (Rzero b).
    + destruct (Rzero a) eqn:Ha; [reflexivity |].
      rewrite Rneg_opp by (intros H; now rewrite H, Rzero_0 in Ha).
      reflexivity.
    + unfold neg. apply (f_equal Fin). unfold Rdiv. lra.
Qed.

Lemma neg_zero : neg (Fin 0) = Fin 0.
Proof. cbn. apply f_equal. lra. Qed.

Lemma add_neg_neg (x y : number) : add (neg x) (neg y) = neg (add x y).
Proof. symmetry. apply neg_add. Qed.

Lemma sub_neg_neg (x y : number) : sub (neg x) (neg y) = neg (sub x y).
Proof. symmetry. apply neg_sub. Qed.

(** Moving every sign to the outside of an expression. *)
Ltac pull_neg :=
  repeat first [ rewrite mul_neg_l | rewrite mul_neg_r | rewrite div_neg_l
               | rewrite sub_neg_neg | rewrite add_neg_neg ].

Lemma PV_odd (rate periods payment future : number) (type : option number) :
  PV rate periods (neg payment) (neg future) type
  = neg (PV rate periods payment future type).
Proof.
  unfold PV. destruct (seq rate 0); pull_neg; reflexivity.
Qed.

Lemma FV_odd (rate periods payment value : number) (type : option number) :
  FV rate periods (neg payment) (neg value) type
  = neg (FV rate periods payment value type).
Proof.
  unfold FV. destruct (seq rate 0); [| destruct (seq (default 0 type) 1)];
    pull_neg; reflexivity.
Qed.

Lemma PMT_odd (rate periods present future : number) (type : option number) :
  PMT rate periods (neg present) (Some (neg future)) type
  = neg (PMT rate periods present (Some future) type).
Proof.
  unfold PMT. cbn [default].
  destruct (seq rate 0); [| destruct (seq (default 0 type) 1)];
    pull_neg; reflexivity.
Qed.

Lemma IPMT_odd (rate period periods present future : number)
  (type : option number) :
  IPMT rate period periods (neg present) (Some (neg future)) type
  = neg (IPMT rate period periods present (Some future) type).
Proof.
  unfold IPMT. rewrite PMT_odd.
  destruct (seq period 1), (seq (default 0 type) 1);
    rewrite ?FV_odd; pull_neg; try reflexivity.
  now rewrite <- mul_neg_l, neg_zero.
Qed.

(** The sign convention is uniform: reversing the direction of every cash
    flow (payment, present and future value) reverses the result of PV,
    FV, PMT, IPMT and PPMT, for all arguments, NaN and infinities
    included. *)
Theorem cash_flow_signs (rate period periods payment present future : number)
  (type : option number) :
  PV rate periods (neg payment) (neg future) type
  = neg (PV rate periods payment future type)
  /\ FV rate periods (neg payment) (neg present) type
     = neg (FV rate periods payment present type)
  /\ PMT rate periods (neg present) (Some (neg future)) type
     = neg (PMT rate periods present (Some future) type)
  /\ IPMT rate period periods (neg present) (Some (neg future)) type
     = neg (IPMT rate period periods present (Some future) type)
  /\ PPMT rate period periods (neg present) (Some (neg future)) type
     = neg (PPMT rate period periods present (Some future) type).
Proof.
  split; [apply PV_odd |]. split; [apply FV_odd |].
  split; [apply PMT_odd |]. split; [apply IPMT_odd |].
  unfold PPMT. rewrite PMT_odd, IPMT_odd. apply sub_neg_neg.
Qed.

Lemma div_neg_neg (x y : number) :
  y <> Fin 0 -> div (neg x) (neg y) = div x y.
Proof.
  intros Hy.
  assert (Hb : forall b : R, y = Fin b -> b <> 0).
  { intros b -> H. apply Hy. now rewrite H. }
  destruct x as [| s | a], y as [| t | b]; cbn; try reflexivity.
  - rewrite Rneg_opp by now apply Hb.
    destruct s, (Rneg b); reflexivity.
  - rewrite Rzero_opp, (Rzero_neq b) by now apply Hb.
    apply f_equal. field. now apply Hb.
Qed.

(** NPER does not depend on the direction of the cash flows: negating
    payment, present and future value leaves the result unchanged, when
    the divisor [den] is not zero. *)
Theorem NPER_sign_invariant (rate payment present future : number)
  (type : option number) :
  NPER_den rate payment present (default 0 type) <> Fin 0 ->
  NPER rate (neg payment) (neg present) (Some (neg future)) type
  = NPER rate payment present (Some future) type.
Proof.
  intros Hden. unfold NPER. cbn [default].
  replace (NPER_num rate (neg payment) (neg future) (default 0 type))
    with (neg (NPER_num rate payment future (default 0 type)))
    by (unfold NPER_num; pull_neg; reflexivity).
  replace (NPER_den rate (neg payment) (neg present) (default 0 type))
    with (neg (NPER_den rate payment present (default 0 type)))
    by (unfold NPER_den; pull_neg; reflexivity).
  now rewrite div_neg_neg.
Qed.

Lemma NPER_sign_invariant_witness :
  NPER 0.05 (neg (Fin (-100))) (neg (Fin 1000)) (Some (neg (Fin 0)))
       (Some (Fin 0))
  = NPER 0.05 (Fin (-100)) 1000 (Some (Fin 0)) (Some (Fin 0)).
Proof.
  apply (NPER_sign_invariant 0.05 (Fin (-100)) 1000 0 (Some (Fin 0))).
  unfold NPER_den, default. cbn [add mul]. intros H. injection H as H. lra.
Defined.

End Signs.

(** ** More on the secant iteration *)

Module SecantFacts.
Import JS Excel JSFacts Secant Signs Aux.

Lemma abs_neg (x : number) : abs (neg x) = abs x.
Proof.
  destruct x as [| s | a]; cbn; try reflexivity. now rewrite Rabs_Ropp.
Qed.

(** While the loop test holds, [y0 - y1] is infinite or exceeds [epsMax] in
    absolute value, and the counter is below [iterMax]. *)
Lemma RATE_cond_true (s : rate_state) :
  RATE_cond s = true ->
  ((exists t : bool, sub (st_y0 s) (st_y1 s) = Inf t)
   \/ (exists d : R, sub (st_y0 s) (st_y1 s) = Fin d /\ 1e-10 < Rabs d))
  /\ (st_i s < iterMax)%nat.
Proof.
  unfold RATE_cond, gt. intros H. apply andb_true_iff in H.
  destruct H as [Hy Hi]. split; [| now apply Nat.ltb_lt].
  destruct (sub (st_y0 s) (st_y1 s)) as [| t | d]; cbn in Hy.
  - discriminate.
  - left. now exists t.
  - right. exists d. split; [reflexivity |]. unfold epsMax in Hy.
    now apply lt_Fin in Hy.
Qed.

Lemma sub_swap (x y : number) : sub y x = neg (sub x y).
Proof.
  unfold sub. destruct x as [| s | a], y as [| t | b]; cbn [add neg];
    try reflexivity.
  - destruct s, t; reflexivity.
  - now rewrite negb_involutive.
  - apply f_equal. lra.
Qed.

Lemma RATE_divisor_nonzero (s : rate_state) :
  RATE_cond s = true -> sub (st_y1 s) (st_y0 s) <> Fin 0.
Proof.
  intros H. destruct (RATE_cond_true s H) as [[[t Ht] | (d & Hd & Hbig)] _];
    rewrite sub_swap; [rewrite Ht | rewrite Hd]; cbn [neg].
  - discriminate.
  - intros E. injection E as E.
    assert (d = 0) by lra. subst d. rewrite Rabs_R0 in Hbig. lra.
Qed.

(** The secant update of RATE never divides by zero or by NaN: whenever
    the loop test holds, the divisor [y1 - y0] of the update is neither 0
    nor NaN. *)
Theorem RATE_divisor (s : rate_state) :
  RATE_cond s = true ->
  sub (st_y1 s) (st_y0 s) <> Fin 0 /\ sub (st_y1 s) (st_y0 s) <> NaN.
Proof.
  intros H. destruct (RATE_cond_true s H) as [[[t Ht] | (d & Hd & Hbig)] _];
    rewrite sub_swap; [rewrite Ht | rewrite Hd]; cbn [neg].
  - split; discriminate.
  - split; [| discriminate]. intros E. injection E as E.
    assert (d = 0) by lra. subst d. rewrite Rabs_R0 in Hbig. lra.
Qed.

Lemma RATE_divisor_witness :
  sub (Fin 1) (Fin 0) <> Fin 0 /\ sub (Fin 1) (Fin 0) <> NaN.
Proof.
  apply (RATE_divisor (mk_rate_state 0 0 0 (Fin 0) (Fin 1) 0 0 0)).
  unfold RATE_cond, gt. cbn [st_y0 st_y1 st_i sub add neg abs].
  apply andb_true_iff. split; [| reflexivity].
  unfold epsMax. apply lt_Fin.
  replace (0 + - (1)) with (-1) by lra. rewrite Rabs_left by lra. lra.
Defined.

Section Flip.
Variables periods payment present future type : number.

Lemma residual_odd (rate f : number) :
  residual periods (neg payment) (neg present) (neg future) type rate f
  = (neg (fst (residual periods payment present future type rate f)),
     snd (residual periods payment present future type rate f)).
Proof.
  unfold residual. destruct (lt (abs rate) epsMax); cbn [fst snd];
    pull_neg; reflexivity.
Qed.

Lemma RATE_init_flip (guess : number) :
  RATE_init periods (neg payment) (neg present) (neg future) type guess
  = flip (RATE_init periods payment present future type guess).
Proof.
  unfold RATE_init. rewrite residual_odd.
  destruct (residual periods payment present future type guess 0) as [y f].
  unfold flip. cbn [fst snd st_rate st_x0 st_x1 st_y0 st_y1 st_y st_f st_i].
  pull_neg. reflexivity.
Qed.

Lemma RATE_cond_flip (s : rate_state) : RATE_cond (flip s) = RATE_cond s.
Proof.
  unfold RATE_cond, flip. cbn [st_y0 st_y1 st_i].
  now rewrite sub_neg_neg, abs_neg.
Qed.

Lemma RATE_step_flip (s : rate_state) :
  RATE_cond s = true ->
  RATE_step periods (neg payment) (neg present) (neg future) type (flip s)
  = flip (RATE_step periods payment present future type s).
Proof.
  intros Hc. pose proof (RATE_divisor_nonzero s Hc) as Hd.
  destruct s as [r x0 x1 y0 y1 y f i].
  unfold RATE_step, flip.
  cbn [st_rate st_x0 st_x1 st_y0 st_y1 st_y st_f st_i] in Hd |- *.
  rewrite !mul_neg_l, !sub_neg_neg, div_neg_neg by assumption.
  rewrite residual_odd.
  destruct (residual periods payment present future type _ f) as [y' f'].
  reflexivity.
Qed.

Lemma RATE_loop_flip (fuel : nat) :
  forall s : rate_state,
    RATE_loop periods (neg payment) (neg present) (neg future) type fuel
      (flip s)
    = flip (RATE_loop periods payment present future type fuel s).
Proof.
  induction fuel as [| fuel IH]; intros s; [reflexivity |].
  rewrite !RATE_loop_S, RATE_cond_flip.
  destruct (RATE_cond s) eqn:Hc; [| reflexivity].
  rewrite (RATE_step_flip s Hc). apply IH.
Qed.

End Flip.

(** RATE does not depend on the direction of the cash flows: negating
    payment, present and future value leaves every estimate of the
    iteration, and the result, unchanged. *)
Theorem RATE_sign_invariant (periods payment present future : number)
  (type guess : option number) :
  RATE periods (neg payment) (neg present) (Some (neg future)) type guess
  = RATE periods payment present (Some future) type guess.
Proof.
  unfold RATE. cbn [default]. rewrite RATE_init_flip, RATE_loop_flip.
  reflexivity.
Qed.

(** A NaN estimate makes the next residual NaN. *)
Lemma residual_NaN (periods payment present future type f : number) :
  fst (residual periods payment present future type NaN f) = NaN.
Proof.
  unfold residual. cbn [abs lt fst add log].
  destruct periods, present; reflexivity.
Qed.

(** RATE gives no sign of a failed iteration: once a secant update
    yields the estimate NaN, the residual computed from it is NaN, the
    loop test fails (a comparison with NaN is false), no further turn is
    made whatever budget is left, and NaN is what RATE returns. *)
Theorem RATE_stops_on_NaN (periods payment present future type : number)
  (s : rate_state) :
  let s' := RATE_step periods payment present future type s in
  st_rate s' = NaN ->
  st_y1 s' = NaN
  /\ RATE_cond s' = false
  /\ forall fuel : nat,
       RATE_loop periods payment present future type fuel s' = s'.
Proof.
  intros s' Hr.
  destruct (RATE_step_secant periods payment present future type s)
    as (_ & _ & _ & _ & Hy1).
  fold s' in Hy1. rewrite Hr, residual_NaN in Hy1.
  assert (Hc : RATE_cond s' = false).
  { unfold RATE_cond. rewrite Hy1.
    replace (abs (sub (st_y0 s') NaN)) with NaN
      by (destruct (st_y0 s'); reflexivity).
    reflexivity. }
  split; [exact Hy1 |]. split; [exact Hc |].
  intros [| fuel]; [reflexivity |]. now rewrite RATE_loop_S, Hc.
Qed.

Lemma RATE_stops_on_NaN_witness :
  let s' := RATE_step 10 (Fin (-100)) 1000 0 0
              (mk_rate_state 0 0 0 (Fin 0) PInf 0 0 0) in
  st_y1 s' = NaN
  /\ RATE_cond s' = false
  /\ forall fuel : nat, RATE_loop 10 (Fin (-100)) 1000 0 0 fuel s' = s'.
Proof.
  apply (RATE_stops_on_NaN 10 (Fin (-100)) 1000 0 0
           (mk_rate_state 0 0 0 (Fin 0) PInf 0 0 0)).
  unfold RATE_step, residual. cbn [st_y0 st_y1 st_x0 st_x1 st_f].
  rewrite mul_Inf_0. reflexivity.
Defined.

(** *** A single period

    With [periods = 1] and payments at the period's end the residual is
    the affine function [present * (1 + rate) + payment + future] of the
    rate, in both branches of [residual]. *)

Section OnePeriod.
Variables payment present future : R.

Let A (x : R) : R := present * (1 + x) + payment + future.

Lemma residual_one_period (x : R) (f : number) :
  -1 < x ->
  fst (residual 1 payment present future 0 x f) = Fin (A x).
Proof.
  intros Hx. unfold residual, A.
  destruct (lt (abs x) epsMax) eqn:Hsmall; cbn [fst].
  - cbn [add mul]. apply f_equal. lra.
  - assert (Hx0 : x <> 0).
    { intros ->. unfold abs, epsMax in Hsmall.
      rewrite Rabs_R0 in Hsmall.
      assert (lt (Fin 0) (Fin 1e-10) = true) by (apply lt_Fin; lra).
      congruence. }
    cbn [add]. unfold log. rewrite Rzero_neq, Rneg_ge by lra.
    cbn [mul exp]. replace (1 * ln (1 + x)) with (ln (1 + x)) by lra.
    rewrite exp_ln by lra. rewrite div_Fin by assumption.
    cbn [add sub mul neg]. apply f_equal. field. assumption.
Qed.

Lemma step_one_period (s : rate_state) (x0 x1 a b r : R) (i : nat) :
  finite_state s x0 x1 a b i ->
  b - a <> 0 -> r = (b * x0 - a * x1) / (b - a) -> -1 < r ->
  st_rate (RATE_step 1 payment present future 0 s) = Fin r
  /\ finite_state (RATE_step 1 payment present future 0 s)
       x1 r b (A r) (S i).
Proof.
  intros (H0 & H1 & Ha & Hb & Hi) Hd Hr Hr1.
  pose proof (RATE_step_secant 1 payment present future 0 s) as Hs.
  cbv zeta in Hs. destruct Hs as (Hrate & Hx0 & Hx1 & Hy0 & Hy1).
  assert (Hrate' : st_rate (RATE_step 1 payment present future 0 s) = Fin r).
  { rewrite Hrate, H0, H1, Ha, Hb. cbn [mul sub add neg].
    rewrite div_Fin by lra. apply f_equal. rewrite Hr. field. lra. }
  split; [exact Hrate' |]. unfold finite_state.
  rewrite Hx0, Hx1, Hy0, Hy1, Hrate', H1, Hb.
  rewrite residual_one_period by assumption.
  repeat split; try reflexivity.
  now rewrite RATE_step_i, Hi.
Qed.

Lemma cond_finite_state (s : rate_state) (x0 x1 a b : R) (i : nat) :
  finite_state s x0 x1 a b i ->
  RATE_cond s
  = (if Rlt_dec 1e-10 (Rabs (a - b)) then true else false)
    && (i <? iterMax)%nat.
Proof.
  intros (_ & _ & Ha & Hb & Hi). unfold RATE_cond, gt.
  rewrite Ha, Hb, Hi. cbn [sub add neg abs lt epsMax].
  replace (a + - b) with (a - b) by lra. reflexivity.
Qed.

(** RATE over one period, payments at its end: the residual is affine in
    the rate, and when the first two residuals differ by more than
    [epsMax] the secant iteration reaches, in at most two turns, the exact
    rate [-(present + payment + future) / present], at which
    [present * (1 + rate) + payment + future = 0]. *)
Theorem RATE_one_period (guess : R) :
  present <> 0 -> -1 < guess -> 1e-10 <= Rabs guess ->
  1e-10 < Rabs (present * guess) ->
  -1 < - (present + payment + future) / present ->
  RATE 1 payment present (Some (Fin future)) (Some (Fin 0)) (Some (Fin guess))
  = Fin (- (present + payment + future) / present).
Proof.
  intros Hpv Hg Hgbig Hfar Hroot.
  set (r := - (present + payment + future) / present) in *.
  assert (HAr : A r = 0) by (unfold A, r; field; assumption).
  assert (Hg0 : guess <> 0).
  { intros H. rewrite H, Rabs_R0 in Hgbig. lra. }
  unfold RATE, default.
  set (s0 := RATE_init 1 payment present future 0 guess).
  assert (Hs0 : finite_state s0 0 guess (A 0) (A guess) 0).
  { assert (Hbig : lt (abs guess) epsMax = false).
    { apply not_true_is_false. unfold abs, epsMax. rewrite lt_Fin. lra. }
    destruct (RATE_init_large_guess 1 payment present future 0 guess Hbig)
      as (H0 & Hy0 & H1 & Hy1).
    fold s0 in H0, Hy0, H1, Hy1. unfold finite_state.
    rewrite H0, Hy0, H1, Hy1, residual_one_period by assumption.
    repeat split; try reflexivity.
    - cbn [add mul]. apply f_equal. unfold A. lra.
    - apply RATE_init_i. }
  assert (Hd0 : A guess - A 0 = present * guess) by (unfold A; ring).
  assert (Hd0' : A 0 - A guess = - (present * guess)) by (unfold A; ring).
  unfold iterMax. rewrite RATE_loop_S.
  rewrite (cond_finite_state s0 _ _ _ _ _ Hs0), Hd0', Rabs_Ropp.
  destruct (Rlt_dec 1e-10 (Rabs (present * guess))) as [_ | N];
    [| contradiction].
  change (0 <? iterMax)%nat with true. cbn [andb].
  destruct (step_one_period s0 0 guess (A 0) (A guess) r 0 Hs0) as [Hr1 Hs1];
    [ rewrite Hd0; intros H; rewrite H, Rabs_R0 in Hfar; lra
    | rewrite Hd0; unfold r, A; field; repeat split; assumption
    | assumption | ].
  set (s1 := RATE_step 1 payment present future 0 s0) in *.
  rewrite HAr in Hs1. rewrite RATE_loop_S.
  rewrite (cond_finite_state s1 _ _ _ _ _ Hs1).
  replace (A guess - 0) with (A guess) by lra.
  destruct (Rlt_dec 1e-10 (Rabs (A guess))) as [Hfar1 | _];
    [| exact Hr1].
  change (1 <? iterMax)%nat with true. cbn [andb].
  assert (HAg : A guess <> 0).
  { intros H. rewrite H, Rabs_R0 in Hfar1. lra. }
  destruct (step_one_period s1 guess r (A guess) 0 r 1%nat Hs1) as [Hr2 Hs2];
    [ lra | field; lra | assumption | ].
  set (s2 := RATE_step 1 payment present future 0 s1) in *.
  rewrite HAr in Hs2. rewrite RATE_loop_S.
  rewrite (cond_finite_state s2 _ _ _ _ _ Hs2).
  replace (0 - 0) with 0 by lra. rewrite Rabs_R0.
  destruct (Rlt_dec 1e-10 0) as [? | _]; [lra |]. exact Hr2.
Qed.

End OnePeriod.

Lemma RATE_one_period_witness :
  RATE 1 0 100 (Some (Fin (-110))) (Some (Fin 0)) (Some (Fin 0.1))
  = Fin (- (100 + 0 + -110) / 100).
Proof.
  apply (RATE_one_period 0 100 (-110) 0.1); try lra.
  - rewrite Rabs_pos_eq; lra.
  - rewrite Rabs_pos_eq; lra.
Defined.

(** With no periods the first two residuals coincide, the loop body
    never runs, and RATE returns its guess (for a guess above -1 that is
    not below [epsMax] in absolute value). *)
Theorem RATE_zero_periods (payment present future type guess : R) :
  -1 < guess -> 1e-10 <= Rabs guess ->
  RATE 0 payment present (Some (Fin future)) (Some (Fin type))
       (Some (Fin guess))
  = Fin guess.
Proof.
  intros Hg Hgbig. unfold RATE, default.
  assert (Hbig : lt (abs guess) epsMax = false).
  { apply not_true_is_false. unfold abs, epsMax. rewrite lt_Fin. lra. }
  assert (Hg0 : guess <> 0).
  { intros ->. rewrite Rabs_R0 in Hgbig. lra. }
  unfold iterMax. rewrite RATE_loop_S.
  replace (RATE_cond (RATE_init 0 payment present future type guess))
    with false; [unfold RATE_init, residual; rewrite Hbig; reflexivity |].
  symmetry. apply RATE_cond_close.
  unfold RATE_init, residual. rewrite Hbig.
  cbn [st_y0 st_y1 add]. unfold log. rewrite Rzero_neq, Rneg_ge by lra.
  cbn [mul exp]. rewrite div_Fin by assumption.
  cbn [add sub mul neg abs]. unfold epsMax. apply le_Fin.
  replace (0 * ln (1 + guess)) with 0 by lra. rewrite exp_0.
  match goal with |- Rabs ?e <= _ => replace e with 0 by (field; assumption) end.
  rewrite Rabs_R0. lra.
Qed.

Lemma RATE_zero_periods_witness :
  RATE 0 (Fin (-100)) 1000 (Some (Fin 0)) (Some (Fin 0)) (Some (Fin 0.01))
  = Fin 0.01.
Proof.
  apply (RATE_zero_periods (-100) 1000 0 0 0.01);
    [lra | rewrite Rabs_pos_eq; lra].
Defined.

End SecantFacts.

(** ** What rounding does to the exact results *)

Module Rounding.
Import B64.
Local Open Scope float_scope.

(** EFFECT(0.05, 1.5) in binary64: both guards pass, [parseInt] gives 1,
    [1 + 0.05 / 1] rounds to 1.05 and [1.05 - 1] is
    0.050000000000000044 ([0x1.99999999999ap-5]), not the rate 0.05
    ([0x1.999999999999ap-5]). *)
Lemma EFFECT_one_period_rounds :
  EFFECT pow_where_exact parseInt_positional 0x1.999999999999ap-5 1.5
  = Num 0x1.99999999999ap-5
  /\ (0x1.99999999999ap-5 =? 0x1.999999999999ap-5) = false.
Proof. split; vm_compute; reflexivity. Qed.

(** PPMT + IPMT against PMT, for period 2 of 3 at rate 0.125 on 100: in
    binary64 all three are finite, [1.125^3] and [1.125^1] are exact, and
    the sum -41.99308755760369 is not PMT, -41.99308755760368.  And in
    exact arithmetic, at rate -2 over 2 periods, PMT is NaN, which is not
    [===] to itself. *)
Lemma PPMT_plus_IPMT_differs :
  (let sum :=
     PPMT pow_where_exact 0.125 2 3 100 (Some 0) (Some 0)
     + IPMT pow_where_exact 0.125 2 3 100 (Some 0) (Some 0) in
   let pmt := PMT pow_where_exact 0.125 3 100 (Some 0) (Some 0) in
   is_finite sum = true /\ is_finite pmt = true /\ (sum =? pmt) = false
   /\ (sum <? pmt) = true)
  /\ JS.seq
       (JS.add
          (Excel.PPMT (JS.Fin (-2)) (JS.Fin 1) (JS.Fin 2) (JS.Fin 100)
             (Some (JS.Fin 0)) (Some (JS.Fin 0)))
          (Excel.IPMT (JS.Fin (-2)) (JS.Fin 1) (JS.Fin 2) (JS.Fin 100)
             (Some (JS.Fin 0)) (Some (JS.Fin 0))))
       (Excel.PMT (JS.Fin (-2)) (JS.Fin 2) (JS.Fin 100)
          (Some (JS.Fin 0)) (Some (JS.Fin 0)))
     = false.
Proof.
  split.
  - vm_compute. repeat split; reflexivity.
  - unfold Excel.PPMT. rewrite Split.PMT_NaN_example. reflexivity.
Qed.

End Rounding.
